(** * Library management application: lending-state model

    A shallow embedding of the Sequelize models ([models/User.js],
    [models/Book.js], [models/UserBooks.js]), the helpers
    ([helpers/booksHelper.js], [helpers/usersHelper.js]) and the route
    handlers that call them ([routes/users.js], [routes/books.js]).

    Modelling conventions.
    - A table is the list of its rows in insertion order; a query without
      ORDER BY scans it front to back.
    - Integer columns and the ids handed to the helpers are [Z] (the
      helpers document them as numbers; [==] on them is equality).
    - The score of a return request is [req.body.score], unchecked: an
      integer or null ([Score]).  Sequelize refuses null for the column
      userScore (allowNull: false), the helper throws and the route
      answers 500.  A score that is missing from the body, or is neither
      an integer nor null, is outside the model.
    - Failures of the database itself (other than a refused primary key
      or a refused null) are not modelled.
    - The arithmetic of getBookWithScore is JavaScript's: the scores read
      from the table become binary64 numbers, are added with [+=] and
      divided with [/] in binary64 ([SpecFloat]).
    - [await] is sequencing in a state-and-exception monad over the
      database; every row-changing statement is recorded in a journal.
    - [Model.sync()] issues CREATE TABLE IF NOT EXISTS on tables that
      [initDB.js] has already created: it changes no row.
    - The [createdAt]/[updatedAt] columns of [UserBooks] are never read by
      the program and are left out. *)

From Stdlib Require Import List ZArith Bool String Ascii Lia DecimalString.
From Stdlib Require Import SpecFloat.
From Stdlib Require Finite DecimalPos DecimalN.
Import ListNotations.
Local Open Scope string_scope.
Local Open Scope list_scope.
Local Open Scope Z_scope.

(** ** Records of the three tables *)

(** [models/User.js]: id INTEGER autoIncrement primaryKey; name STRING. *)
Record User := mkUser { user_id : Z; user_name : string }.

(** [models/Book.js]: the implicit id, name STRING, averageRating FLOAT
    with default 0 (never read nor written by the helpers). *)
Record Book := mkBook {
  book_id : Z;
  book_name : string;
  averageRating : spec_float
}.

(** [models/UserBooks.js]: composite primary key (userId, bookId),
    userScore INTEGER NOT NULL DEFAULT 0, isCurrentlyBorrowed BOOLEAN
    DEFAULT true. *)
Record UserBooks := mkUserBooks {
  userId : Z;
  bookId : Z;
  userScore : Z;
  isCurrentlyBorrowed : bool
}.

Record Store := mkStore {
  users : list User;
  books : list Book;
  userBooks : list UserBooks
}.

Definition emptyStore : Store := mkStore [] [] [].

(** ** The database monad *)

Inductive Table := TUsers | TBooks | TUserBooks.

(** One journal entry per row-changing statement. *)
Inductive Write :=
| Inserted (t : Table)
| Updated (t : Table) (affected : nat).

Inductive DbError := UniqueConstraintError | ValidationError.

Inductive Settled (A : Type) :=
| Fulfilled (a : A)
| Rejected (e : DbError).
Arguments Fulfilled {A} a.
Arguments Rejected {A} e.

Record World := mkWorld { store : Store; journal : list Write }.

Definition Async (A : Type) : Type := World -> Settled A * World.

Definition ret {A} (a : A) : Async A := fun w => (Fulfilled a, w).

Definition bind {A B} (m : Async A) (k : A -> Async B) : Async B :=
  fun w => match m w with
           | (Fulfilled a, w') => k a w'
           | (Rejected e, w') => (Rejected e, w')
           end.

Definition throw {A} (e : DbError) : Async A := fun w => (Rejected e, w).

Declare Scope async_scope.
Delimit Scope async_scope with async.
Notation "'await' x <- m ;; k" := (bind m (fun x => k))
  (at level 61, x name, m at next level, right associativity) : async_scope.
Notation "'run' m ;; k" := (bind m (fun _ => k))
  (at level 61, m at next level, right associativity) : async_scope.
Local Open Scope async_scope.

Definition fresh (s : Store) : World := mkWorld s [].

(** ** Sequelize primitives *)

Definition is_table (t : Table) (w : Write) : bool :=
  match w, t with
  | Inserted TUsers, TUsers | Inserted TBooks, TBooks
  | Inserted TUserBooks, TUserBooks => true
  | Updated TUsers _, TUsers | Updated TBooks _, TBooks
  | Updated TUserBooks _, TUserBooks => true
  | _, _ => false
  end.

(** Number of statements that wrote to table [t]. *)
Definition writes_to (t : Table) (j : list Write) : nat :=
  List.length (filter (is_table t) j).

(** AUTOINCREMENT on a table from which nothing is deleted. *)
Definition next_id (ids : list Z) : Z := 1 + fold_right Z.max 0 ids.

Definition sync : Async unit := ret tt.

Module UserModel.
Definition findByPk (id : Z) : Async (option User) :=
  fun w => (Fulfilled (find (fun u => user_id u =? id) (users (store w))), w).

Definition findAll : Async (list User) :=
  fun w => (Fulfilled (users (store w)), w).

Definition create (name : string) : Async User :=
  fun w =>
    let s := store w in
    let u := mkUser (next_id (map user_id (users s))) name in
    (Fulfilled u,
     mkWorld (mkStore (users s ++ [u]) (books s) (userBooks s))
             (journal w ++ [Inserted TUsers])).
End UserModel.

Module BookModel.
Definition findByPk (id : Z) : Async (option Book) :=
  fun w => (Fulfilled (find (fun b => book_id b =? id) (books (store w))), w).

Definition findAll : Async (list Book) :=
  fun w => (Fulfilled (books (store w)), w).

Definition create (name : string) : Async Book :=
  fun w =>
    let s := store w in
    let b := mkBook (next_id (map book_id (books s))) name (S754_zero false) in
    (Fulfilled b,
     mkWorld (mkStore (users s) (books s ++ [b]) (userBooks s))
             (journal w ++ [Inserted TBooks])).
End BookModel.

(** [req.body.score] as the return route hands it on. *)
Inductive Score := IntScore (z : Z) | NullScore.
Coercion IntScore : Z >-> Score.

(** Rows carrying the primary key (u, b). *)
Definition has_key (u b : Z) (r : UserBooks) : bool :=
  (userId r =? u) && (bookId r =? b).

Module UserBooksModel.
(** [findOne({ where })]: the first row satisfying the clause. *)
Definition findOne (where_ : UserBooks -> bool) : Async (option UserBooks) :=
  fun w => (Fulfilled (find where_ (userBooks (store w))), w).

(** [update(values, { where })]: one UPDATE statement over every row
    satisfying the clause. *)
Definition update (set : UserBooks -> UserBooks) (where_ : UserBooks -> bool)
  : Async unit :=
  fun w =>
    let s := store w in
    let t := userBooks s in
    (Fulfilled tt,
     mkWorld (mkStore (users s) (books s)
                      (map (fun r => if where_ r then set r else r) t))
             (journal w ++ [Updated TUserBooks (List.length (filter where_ t))])).

(** [create({ userId, bookId, isCurrentlyBorrowed })]: userScore takes
    its default 0; the INSERT is refused when the primary key is taken. *)
Definition create (u b : Z) (borrowed : bool) : Async UserBooks :=
  fun w =>
    let s := store w in
    if existsb (has_key u b) (userBooks s)
    then throw UniqueConstraintError w
    else
      let r := mkUserBooks u b 0 borrowed in
      (Fulfilled r,
       mkWorld (mkStore (users s) (books s) (userBooks s ++ [r]))
               (journal w ++ [Inserted TUserBooks])).

(** [instance.update({ isCurrentlyBorrowed, userScore })]: the values are
    validated against the columns before any statement is issued, and a
    null userScore is refused (allowNull: false); otherwise UPDATE ...
    WHERE the primary key is the instance's. *)
Definition updateInstance (entry : UserBooks) (borrowed : bool) (score : Score)
  : Async unit :=
  match score with
  | NullScore => throw ValidationError
  | IntScore z =>
      update (fun r => mkUserBooks (userId r) (bookId r) z borrowed)
             (has_key (userId entry) (bookId entry))
  end.
End UserBooksModel.

(** ** helpers/booksHelper.js: borrowBook and returnBook *)

(** The [{ success, message, status }] object the helpers resolve to. *)
Record Result := mkResult { success : bool; message : string; status : Z }.

Definition borrowBook (userId_ bookId_ : Z) : Async Result :=
  await user <- UserModel.findByPk userId_ ;;
  await book <- BookModel.findByPk bookId_ ;;
  match user, book with
  | Some _, Some _ =>
      await existingEntry <- UserBooksModel.findOne
        (fun r => (bookId r =? bookId_) && Bool.eqb (isCurrentlyBorrowed r) true) ;;
      match existingEntry with
      | Some existing =>
          let byUserMessage :=
            if userId existing =? userId_ then " this user" else " someone else" in
          ret (mkResult false ("Book is already borrowed by" ++ byUserMessage)%string 400)
      | None =>
          run sync ;;
          await isPreviouslyBorrowed <- UserBooksModel.findOne
            (fun r => (bookId r =? bookId_) && (userId r =? userId_)
                      && Bool.eqb (isCurrentlyBorrowed r) false) ;;
          run match isPreviouslyBorrowed with
                | Some _ =>
                    UserBooksModel.update
                      (fun r => mkUserBooks (userId r) (bookId r) 0 true)
                      (fun r => (bookId r =? bookId_) && (userId r =? userId_))
                | None =>
                    run UserBooksModel.create userId_ bookId_ true ;; ret tt
                end ;;
          ret (mkResult true "Book borrowed successfully" 200)
      end
  | _, _ => ret (mkResult false "User or Book not found" 404)
  end.

Definition returnBook (userId_ bookId_ : Z) (score : Score) : Async Result :=
  await user <- UserModel.findByPk userId_ ;;
  await book <- BookModel.findByPk bookId_ ;;
  match user, book with
  | Some _, Some _ =>
      await userBookEntry <- UserBooksModel.findOne
        (fun r => (userId r =? userId_) && (bookId r =? bookId_)
                  && Bool.eqb (isCurrentlyBorrowed r) true) ;;
      match userBookEntry with
      | None =>
          ret (mkResult false "This book is not currently borrowed by the user" 400)
      | Some entry =>
          run UserBooksModel.updateInstance entry false score ;;
          ret (mkResult true "Book returned successfully" 200)
      end
  | _, _ => ret (mkResult false "User or Book not found" 404)
  end.

(** ** JavaScript numbers and [toFixed] *)

(** Binary64: 53 bits of precision, exponents below 1024. *)
Definition Number := spec_float.

Definition Number_of_Z (z : Z) : Number := binary_normalize 53 1024 z 0 false.

Definition Number_div (x y : Number) : Number := SFdiv 53 1024 x y.

Definition Number_add (x y : Number) : Number := SFadd 53 1024 x y.

(** [x === 0]: true of both zeros, false of everything else (NaN too). *)
Definition Number_is_zero (x : Number) : bool :=
  match x with
  | S754_zero _ => true
  | _ => false
  end.

(** The text of a number.  [toFixed] hands numbers that are not finite or
    not below 10^21 to Number::toString; that text is kept symbolic. *)
Inductive NumberText :=
| Digits (s : string)
| NumberToString (x : Number).

(** A finite nonzero binary64 [m * 2^e] as the fraction [num / den]. *)
Definition numerator (m : positive) (e : Z) : Z := Z.pos m * 2 ^ Z.max e 0.
Definition denominator (e : Z) : Z := 2 ^ Z.max (- e) 0.

(** The integer [n] for which [n / 100 - num / den] is closest to zero,
    the larger one when two are equally close. *)
Definition hundredths (num den : Z) : Z := (200 * num + den) / (2 * den).

Definition decimal (n : Z) : string := NilZero.string_of_uint (N.to_uint (Z.to_N n)).

Fixpoint zeros (k : nat) : string :=
  match k with
  | O => EmptyString
  | S k' => String "0"%char (zeros k')
  end.

(** Steps 9 and 10 of Number.prototype.toFixed with two fraction digits:
    pad [n] to three digits and put the point before the last two. *)
Definition point2 (n : Z) : string :=
  let m := decimal n in
  let m := (zeros (3 - String.length m) ++ m)%string in
  let k := String.length m in
  (substring 0 (k - 2) m ++ "." ++ substring (k - 2) 2 m)%string.

(** [x.toFixed(2)]. *)
Definition toFixed2 (x : Number) : NumberText :=
  match x with
  | S754_zero _ => Digits (point2 0)
  | S754_finite sign m e =>
      let num := numerator m e in
      let den := denominator e in
      if 10 ^ 21 * den <=? num then NumberToString x
      else Digits ((if sign then "-" else EmptyString) ++ point2 (hundredths num den))%string
  | _ => NumberToString x
  end.

(** The values a [score] property takes. *)
Inductive JsValue :=
| JsNumber (z : Z)
| JsString (t : NumberText).

(** [v !== 0]: a string is never strictly equal to a number. *)
Definition strict_neq_zero (v : JsValue) : bool :=
  match v with
  | JsNumber z => negb (z =? 0)
  | JsString _ => true
  end.

(** ** helpers/booksHelper.js: getBookWithScore and getAllBooks *)

(** [Book.findByPk(id, { include: [{ model: User, through }] })]: the book
    with one entry of [Users] per [UserBooks] row of the book whose user
    exists, each carrying its through row. *)
Definition includeUsers (s : Store) (b : Book) : list (User * UserBooks) :=
  flat_map (fun r =>
              if bookId r =? book_id b then
                match find (fun u => user_id u =? userId r) (users s) with
                | Some u => [(u, r)]
                | None => []
                end
              else [])
           (userBooks s).

Definition findBookWithUsers (id : Z) : Async (option (Book * list (User * UserBooks))) :=
  fun w =>
    (Fulfilled (option_map (fun b => (b, includeUsers (store w) b))
                           (find (fun b => book_id b =? id) (books (store w)))),
     w).

Record BookWithScore := mkBookWithScore {
  bws_id : Z;
  bws_name : string;
  score : JsValue
}.

(** [userScore] is NOT NULL, so the guard against null and undefined in
    the loop always passes.  [averageScore] is the string [toFixed] gives
    or the number 0, and is then compared with [!== 0]. *)
Definition getBookWithScore (bookId_ : Z) : Async (option BookWithScore) :=
  await found <- findBookWithUsers bookId_ ;;
  match found with
  | None => ret None
  | Some (book, Users) =>
      let totalScore :=
        fold_left (fun total user =>
                     Number_add total (Number_of_Z (userScore (snd user))))
                  Users (S754_zero false) in
      let averageScore :=
        if negb (Number_is_zero totalScore)
        then JsString (toFixed2 (Number_div totalScore
                                            (Number_of_Z (Z.of_nat (List.length Users)))))
        else JsNumber 0 in
      if strict_neq_zero averageScore
      then ret (Some (mkBookWithScore (book_id book) (book_name book) averageScore))
      else ret (Some (mkBookWithScore (book_id book) (book_name book) (JsNumber (-1))))
  end.

Definition getAllBooks : Async (list (Z * string)) :=
  await books <- (run sync ;; BookModel.findAll) ;;
  ret (map (fun book => (book_id book, book_name book)) books).

(** ** helpers/usersHelper.js *)

Definition getAllUsers : Async (list User) :=
  await users <- UserModel.findAll ;;
  ret users.

(** The callback given to [then] awaits the INSERT and returns nothing, so
    the promise the helper returns resolves to [undefined] ([None]). *)
Definition createUser (userName : string) : Async (option User) :=
  await user <- (run sync ;; run UserModel.create userName ;; ret (@None User)) ;;
  ret user.

(** [User.findByPk(id, { include: [{ model: Book, through }] })]. *)
Definition includeBooks (s : Store) (u : User) : list (Book * UserBooks) :=
  flat_map (fun r =>
              if userId r =? user_id u then
                match find (fun b => book_id b =? bookId r) (books s) with
                | Some b => [(b, r)]
                | None => []
                end
              else [])
           (userBooks s).

Definition findUserWithBooks (id : Z) : Async (option (User * list (Book * UserBooks))) :=
  fun w =>
    (Fulfilled (option_map (fun u => (u, includeBooks (store w) u))
                           (find (fun u => user_id u =? id) (users (store w)))),
     w).

Record PastBook := mkPastBook { past_name : string; past_userScore : Z }.
Record PresentBook := mkPresentBook { present_name : string }.

Record UserWithBooks := mkUserWithBooks {
  uwb_id : Z;
  uwb_name : string;
  past : list PastBook;
  present : list PresentBook
}.

Definition getUserById (userId_ : Z) : Async (option UserWithBooks) :=
  await found <- findUserWithBooks userId_ ;;
  match found with
  | None => ret None
  | Some (user, Books) =>
      let '(pastBooks, presentBooks) :=
        fold_left
          (fun '(pastBooks, presentBooks) book =>
             if isCurrentlyBorrowed (snd book)
             then (pastBooks, presentBooks ++ [mkPresentBook (book_name (fst book))])
             else (pastBooks ++ [mkPastBook (book_name (fst book)) (userScore (snd book))],
                   presentBooks))
          Books ([], []) in
      ret (Some (mkUserWithBooks (user_id user) (user_name user) pastBooks presentBooks))
  end.

(** ** routes/users.js and routes/books.js *)

(** What a handler passes to [res.json]. *)
Inductive Json :=
| JUndefined
| JPromise
| JValidationErrors
| JError (msg : string)
| JMessage (msg : string)
| JUser (u : User)
| JBook (b : Book)
| JBookWithScore (b : BookWithScore)
| JUserWithBooks (u : UserWithBooks).

Record Response := mkResponse { code : Z; body : Json }.

(** [try { ... } catch (error) { ... }]. *)
Definition try_catch {A} (m : Async A) (handler : DbError -> Async A) : Async A :=
  fun w => match m w with
           | (Fulfilled a, w') => (Fulfilled a, w')
           | (Rejected e, w') => handler e w'
           end.

(** [body('name').notEmpty()]. *)
Definition notEmpty (name : string) : bool :=
  match name with
  | EmptyString => false
  | _ => true
  end.

(** POST /users *)
Definition postUser (name : string) : Async Response :=
  if negb (notEmpty name) then ret (mkResponse 400 JValidationErrors)
  else
    try_catch
      (await user <- createUser name ;;
       ret (mkResponse 201 (match user with Some u => JUser u | None => JUndefined end)))
      (fun _ => ret (mkResponse 500 (JError "An error occurred while creating the user"))).

(** A promise that nobody awaits: its effects take place, its outcome,
    a rejection included, reaches no one. *)
Definition detached {A} (m : Async A) : Async unit :=
  fun w => (Fulfilled tt, snd (m w)).

(** POST /books: the promise of the INSERT is not awaited; it is the
    promise object itself that goes to [res.json], at once.  The INSERT
    runs detached, after the answer has been sent: the world [postBook]
    returns is the one reached when it has settled, not the one in which
    the client receives the 201. *)
Definition postBook (name : string) : Async Response :=
  if negb (notEmpty name) then ret (mkResponse 400 JValidationErrors)
  else
    run detached (run sync ;; run BookModel.create name ;; ret tt) ;;
    ret (mkResponse 201 JPromise).

(** GET /books/:id *)
Definition getBook (id : Z) : Async Response :=
  await book <- getBookWithScore id ;;
  match book with
  | None => ret (mkResponse 404 (JError "Book not found"))
  | Some b => ret (mkResponse 200 (JBookWithScore b))
  end.

(** GET /users/:userId *)
Definition getUser (id : Z) : Async Response :=
  try_catch
    (await user <- getUserById id ;;
     match user with
     | None => ret (mkResponse 404 (JError "User not found"))
     | Some u => ret (mkResponse 200 (JUserWithBooks u))
     end)
    (fun _ => ret (mkResponse 500 (JError "An error occurred while fetching the user"))).

(** POST /users/:userId/borrow/:bookId *)
Definition postBorrow (userId_ bookId_ : Z) : Async Response :=
  try_catch
    (await borrowBookResult <- borrowBook userId_ bookId_ ;;
     if success borrowBookResult
     then ret (mkResponse (status borrowBookResult) (JMessage (message borrowBookResult)))
     else ret (mkResponse (status borrowBookResult) (JError (message borrowBookResult))))
    (fun _ => ret (mkResponse 500 (JError "An error occurred while borrowing the book"))).

(** POST /users/:userId/return/:bookId *)
Definition postReturn (userId_ bookId_ : Z) (score : Score) : Async Response :=
  try_catch
    (await returnedBookResult <- returnBook userId_ bookId_ score ;;
     if success returnedBookResult
     then ret (mkResponse (status returnedBookResult) (JMessage (message returnedBookResult)))
     else ret (mkResponse (status returnedBookResult) (JError (message returnedBookResult))))
    (fun _ => ret (mkResponse 500 (JError "An error occurred while returning the book"))).

(** ** Sequential runs *)

Inductive Call :=
| CreateUser (name : string)
| CreateBook (name : string)
| BorrowBook (userId_ bookId_ : Z)
| ReturnBook (userId_ bookId_ : Z) (score : Score).

Definition serve (c : Call) : Async Response :=
  match c with
  | CreateUser name => postUser name
  | CreateBook name => postBook name
  | BorrowBook u b => postBorrow u b
  | ReturnBook u b score => postReturn u b score
  end.

(** The store after serving the calls one after the other. *)
Definition after (calls : list Call) (s : Store) : Store :=
  fold_left (fun s c => store (snd (serve c (fresh s)))) calls s.

Definition reachable (s : Store) : Prop :=
  exists calls, s = after calls emptyStore.

(** * Vocabulary of the properties *)

(** The where-clauses of [borrowBook] and [returnBook]. *)
Definition open_for (b : Z) (r : UserBooks) : bool :=
  (bookId r =? b) && Bool.eqb (isCurrentlyBorrowed r) true.

Definition closed_pair (u b : Z) (r : UserBooks) : bool :=
  (bookId r =? b) && (userId r =? u) && Bool.eqb (isCurrentlyBorrowed r) false.

Definition pair_of (u b : Z) (r : UserBooks) : bool :=
  (bookId r =? b) && (userId r =? u).

Definition open_pair (u b : Z) (r : UserBooks) : bool :=
  (userId r =? u) && (bookId r =? b) && Bool.eqb (isCurrentlyBorrowed r) true.

(** The two row updates of the program. *)
Definition reopen (r : UserBooks) : UserBooks :=
  mkUserBooks (userId r) (bookId r) 0 true.

Definition close (score : Z) (r : UserBooks) : UserBooks :=
  mkUserBooks (userId r) (bookId r) score false.

Definition exists_user (u : Z) (s : Store) : Prop :=
  find (fun x => user_id x =? u) (users s) <> None.

Definition exists_book (b : Z) (s : Store) : Prop :=
  find (fun x => book_id x =? b) (books s) <> None.

(** The error taxonomy, read off the result objects: NotFound is status
    404; Conflict (borrow) and InvalidState (return) are status 400. *)
Definition NotFound (r : Result) : Prop := success r = false /\ status r = 404.
Definition Conflict (r : Result) : Prop := success r = false /\ status r = 400.
Definition InvalidState (r : Result) : Prop := success r = false /\ status r = 400.

Definition conflict_message (u : Z) (e : UserBooks) : string :=
  if userId e =? u then "Book is already borrowed by this user"
  else "Book is already borrowed by someone else".

(** The Loan-link rows of a book, and the open ones among them. *)
Definition links_of_book (b : Z) (t : list UserBooks) : list UserBooks :=
  filter (fun r => bookId r =? b) t.

Definition open_links (b : Z) (t : list UserBooks) : list UserBooks :=
  filter (fun r => (bookId r =? b) && isCurrentlyBorrowed r) t.

Definition total_score (rows : list UserBooks) : Z :=
  fold_right (fun r acc => userScore r + acc) 0 rows.

(** The sum of the scores of a book's Loan-link rows, and their number. *)
Definition book_total (b : Z) (s : Store) : Z :=
  total_score (links_of_book b (userBooks s)).

Definition book_count (b : Z) (s : Store) : Z :=
  Z.of_nat (List.length (links_of_book b (userBooks s))).

(** The running sum of getBookWithScore over rows, as the loop computes
    it: in binary64, row after row, from +0. *)
Definition running_total (rows : list UserBooks) : Number :=
  fold_left (fun total r => Number_add total (Number_of_Z (userScore r)))
            rows (S754_zero false).

(** Every score, and every running sum from [acc] on, is below [bound] in
    magnitude. *)
Fixpoint running_sums_below (bound acc : Z) (rows : list UserBooks) : bool :=
  match rows with
  | [] => true
  | r :: rows' =>
      (Z.abs (userScore r) <? bound)
      && (Z.abs (acc + userScore r) <? bound)
      && running_sums_below bound (acc + userScore r) rows'
  end.

(** The scores of a book stay where binary64 adds integers exactly. *)
Definition safe_scores (b : Z) (s : Store) : Prop :=
  running_sums_below (2 ^ 53) 0 (links_of_book b (userBooks s)) = true.

(** Invariant A: a book has at most one open Loan-link. *)
Definition invariant_A (s : Store) : Prop :=
  forall b, (List.length (open_links b (userBooks s)) <= 1)%nat.

(** The constraints the schema declares on [UserBooks]. *)
Definition primary_key (s : Store) : Prop :=
  forall u b, (List.length (filter (has_key u b) (userBooks s)) <= 1)%nat.

Definition foreign_keys (s : Store) : Prop :=
  forall r, In r (userBooks s) ->
            exists_user (userId r) s /\ exists_book (bookId r) s.

(** An open Loan-link carries the score 0. *)
Definition open_unscored (s : Store) : Prop :=
  forall r, In r (userBooks s) -> isCurrentlyBorrowed r = true -> userScore r = 0.

Record consistent (s : Store) : Prop := mkConsistent {
  cons_pk : primary_key s;
  cons_fk : foreign_keys s;
  cons_A : invariant_A s;
  cons_unscored : open_unscored s
}.

(** The four ways a borrow call ends. *)
Inductive borrow_outcome (u b : Z) (s : Store)
  : Result -> Store -> list Write -> Prop :=
| borrow_not_found :
    ~ (exists_user u s /\ exists_book b s) ->
    borrow_outcome u b s (mkResult false "User or Book not found" 404) s []
| borrow_conflict e :
    exists_user u s -> exists_book b s ->
    find (open_for b) (userBooks s) = Some e ->
    borrow_outcome u b s (mkResult false (conflict_message u e) 400) s []
| borrow_reopen e :
    exists_user u s -> exists_book b s ->
    find (open_for b) (userBooks s) = None ->
    find (closed_pair u b) (userBooks s) = Some e ->
    borrow_outcome u b s (mkResult true "Book borrowed successfully" 200)
      (mkStore (users s) (books s)
               (map (fun r => if pair_of u b r then reopen r else r) (userBooks s)))
      [Updated TUserBooks (List.length (filter (pair_of u b) (userBooks s)))]
| borrow_create :
    exists_user u s -> exists_book b s ->
    find (open_for b) (userBooks s) = None ->
    find (closed_pair u b) (userBooks s) = None ->
    borrow_outcome u b s (mkResult true "Book borrowed successfully" 200)
      (mkStore (users s) (books s) (userBooks s ++ [mkUserBooks u b 0 true]))
      [Inserted TUserBooks].

(** The store a return call leaves behind. *)
Definition returned (u b score : Z) (s : Store) : Store :=
  match find (fun x => user_id x =? u) (users s),
        find (fun x => book_id x =? b) (books s),
        find (open_pair u b) (userBooks s) with
  | Some _, Some _, Some _ =>
      mkStore (users s) (books s)
              (map (fun r => if has_key u b r then close score r else r) (userBooks s))
  | _, _, _ => s
  end.

(** Whether a [score] is a JavaScript number. *)
Definition is_number (v : JsValue) : bool :=
  match v with
  | JsNumber _ => true
  | JsString _ => false
  end.

(** The entries [getUserById] builds from a joined book. *)
Definition present_entry (bl : Book * UserBooks) : PresentBook :=
  mkPresentBook (book_name (fst bl)).

Definition past_entry (bl : Book * UserBooks) : PastBook :=
  mkPastBook (book_name (fst bl)) (userScore (snd bl)).

(** Where the remainder [r] of a division by [d] lies in the unit interval:
    what a rounding [location] says. *)
Definition loc_ok (l : location) (r d : Z) : Prop :=
  match l with
  | loc_Exact => r = 0
  | loc_Inexact Lt => 0 < 2 * r < d
  | loc_Inexact Eq => 0 < r /\ 2 * r = d
  | loc_Inexact Gt => d < 2 * r /\ r < d
  end.

(** Sample states for the concrete instances below. *)
Definition alice_holds_dune : Store :=
  after [CreateUser "Alice"; CreateUser "Bob"; CreateBook "Dune"; BorrowBook 1 1]
        emptyStore.

Definition alice_returned_dune : Store :=
  after [ReturnBook 1 1 4] alice_holds_dune.

(** Alice gave Dune a 4; Bob holds it now. *)
Definition bob_holds_rated_dune : Store :=
  after [BorrowBook 2 1] alice_returned_dune.

(** Three readers return Dune with the scores given, one after the other. *)
Definition three_scores (x y z : Z) : Store :=
  after [CreateUser "Alice"; CreateUser "Bob"; CreateUser "Carol"; CreateBook "Dune";
         BorrowBook 1 1; ReturnBook 1 1 x;
         BorrowBook 2 1; ReturnBook 2 1 y;
         BorrowBook 3 1; ReturnBook 3 1 z]
        emptyStore.

(** The primary keys of a table, in row order. *)
Definition keys (t : list UserBooks) : list (Z * Z) :=
  map (fun r => (userId r, bookId r)) t.

(** The ids 1, 2, ..., n. *)
Definition ids_upto (n : nat) : list Z := map Z.of_nat (seq 1 n).

(** Users and books are numbered 1, 2, ... in the order of creation. *)
Definition sequential_ids (s : Store) : Prop :=
  map user_id (users s) = ids_upto (List.length (users s)) /\
  map book_id (books s) = ids_upto (List.length (books s)).

(** The Loan-link rows of a user. *)
Definition links_of_user (u : Z) (t : list UserBooks) : list UserBooks :=
  filter (fun r => userId r =? u) t.

(** What one served call may do to the store. *)
Inductive step (s : Store) : Store -> Prop :=
| step_none : step s s
| step_user name :
    notEmpty name = true ->
    step s (mkStore (users s ++ [mkUser (next_id (map user_id (users s))) name])
                    (books s) (userBooks s))
| step_book name :
    notEmpty name = true ->
    step s (mkStore (users s)
                    (books s ++ [mkBook (next_id (map book_id (books s))) name
                                        (S754_zero false)])
                    (userBooks s))
| step_borrow u b r s' j :
    borrow_outcome u b s r s' j -> step s s'
| step_return u b score :
    step s (returned u b score s).

(** * Lemmas on lists and tables *)

Lemma filter_map_length_le {A} (p q : A -> bool) (g : A -> A) (l : list A) :
  (forall x, In x l -> p (g x) = true -> q x = true) ->
  (List.length (filter p (map g l)) <= List.length (filter q l))%nat.
Proof.
  induction l as [|x l IH]; intros H; simpl; [lia|].
  assert (IH' := IH (fun y Hy => H y (or_intror Hy))).
  destruct (p (g x)) eqn:Ep.
  - rewrite (H x (or_introl eq_refl) Ep). simpl. lia.
  - destruct (q x); simpl; lia.
Qed.

Lemma filter_nil_iff {A} (p : A -> bool) (l : list A) :
  filter p l = [] <-> forall x, In x l -> p x = false.
Proof.
  induction l as [|x l IH]; simpl.
  - split; [intros _ y []|reflexivity].
  - destruct (p x) eqn:E; split.
    + discriminate.
    + intros H. specialize (H x (or_introl eq_refl)). congruence.
    + intros H y [<-|Hy]; [assumption|]. now apply IH.
    + intros H. apply IH. intros y Hy. apply H. now right.
Qed.

Lemma find_app_some {A} (p : A -> bool) (l l' : list A) :
  find p l <> None -> find p (l ++ l') <> None.
Proof.
  induction l as [|x l IH]; simpl; [congruence|].
  destruct (p x); [congruence|exact IH].
Qed.

Lemma eqb_true_r (x : bool) : Bool.eqb x true = x.
Proof. now destruct x. Qed.

Lemma eqb_false_r (x : bool) : Bool.eqb x false = negb x.
Proof. now destruct x. Qed.

Lemma pair_of_has_key u b r : pair_of u b r = has_key u b r.
Proof. unfold pair_of, has_key. apply andb_comm. Qed.

Lemma open_links_filter b t : open_links b t = filter (open_for b) t.
Proof.
  unfold open_links. apply filter_ext. intros r. unfold open_for.
  now rewrite eqb_true_r.
Qed.

Lemma filter_at_most_one {A} (p : A -> bool) (l : list A) (x y : A) :
  (List.length (filter p l) <= 1)%nat ->
  In x l -> p x = true -> In y l -> p y = true -> x = y.
Proof.
  intros Hlen Hx Px Hy Py.
  assert (Fx : In x (filter p l)) by (apply filter_In; auto).
  assert (Fy : In y (filter p l)) by (apply filter_In; auto).
  destruct (filter p l) as [|z [|z' l']]; simpl in *; try lia; try contradiction.
  destruct Fx as [<-|[]], Fy as [<-|[]]. reflexivity.
Qed.

Lemma filter_map_length_eq {A} (p : A -> bool) (g : A -> A) (l : list A) :
  (forall x, p (g x) = p x) ->
  List.length (filter p (map g l)) = List.length (filter p l).
Proof.
  intros H. induction l as [|x l IH]; simpl; [reflexivity|].
  rewrite H. destruct (p x); simpl; congruence.
Qed.

Lemma map_if_id {A} (p : A -> bool) (f : A -> A) (l : list A) :
  (forall x, In x l -> p x = false) ->
  map (fun r => if p r then f r else r) l = l.
Proof.
  induction l as [|x l IH]; intros H; simpl; [reflexivity|].
  rewrite (H x (or_introl eq_refl)), IH; [reflexivity|].
  intros y Hy. apply H. now right.
Qed.

Lemma map_update_unique {A} (p : A -> bool) (f : A -> A) (l : list A) (e : A) :
  (List.length (filter p l) <= 1)%nat -> In e l -> p e = true ->
  exists pre post,
    l = pre ++ e :: post /\
    map (fun r => if p r then f r else r) l = pre ++ f e :: post.
Proof.
  intros Hlen Hin Hp. apply in_split in Hin as (pre & post & ->).
  exists pre, post. split; [reflexivity|].
  rewrite filter_app, length_app in Hlen. cbn [filter] in Hlen.
  rewrite Hp in Hlen. cbn [List.length] in Hlen.
  assert (Hpre : filter p pre = []) by (apply length_zero_iff_nil; lia).
  assert (Hpost : filter p post = []) by (apply length_zero_iff_nil; lia).
  rewrite map_app. cbn [map]. rewrite Hp.
  rewrite !map_if_id; [reflexivity| |]; now apply filter_nil_iff.
Qed.

(** ** What one borrow call does *)

Lemma no_open_no_closed_no_row u b t :
  find (open_for b) t = None ->
  find (closed_pair u b) t = None ->
  existsb (has_key u b) t = false.
Proof.
  intros Hopen Hclosed.
  destruct (existsb (has_key u b) t) eqn:E; [exfalso | reflexivity].
  apply existsb_exists in E as (r & Hin & Hkey).
  pose proof (find_none _ _ Hopen r Hin) as H1.
  pose proof (find_none _ _ Hclosed r Hin) as H2.
  unfold has_key, open_for, closed_pair in *.
  apply andb_true_iff in Hkey as [Hu Hb].
  rewrite Hu, Hb in *. simpl in *.
  destruct (isCurrentlyBorrowed r); discriminate.
Qed.

Lemma borrowBook_outcome u b w :
  exists r s' j,
    borrowBook u b w = (Fulfilled r, mkWorld s' (journal w ++ j))
    /\ borrow_outcome u b (store w) r s' j.
Proof.
  destruct w as [s jn].
  cbv [borrowBook bind UserModel.findByPk BookModel.findByPk
       UserBooksModel.findOne sync ret store journal].
  destruct (find (fun x => user_id x =? u) (users s)) as [usr|] eqn:Eu.
  2:{ eexists _, _, []; rewrite app_nil_r; split; [reflexivity|].
      apply borrow_not_found. unfold exists_user. intros [H _]. congruence. }
  destruct (find (fun x => book_id x =? b) (books s)) as [bk|] eqn:Eb.
  2:{ eexists _, _, []; rewrite app_nil_r; split; [reflexivity|].
      apply borrow_not_found. unfold exists_book. intros [_ H]. congruence. }
  assert (Hu : exists_user u s) by (unfold exists_user; congruence).
  assert (Hb : exists_book b s) by (unfold exists_book; congruence).
  fold (open_for b).
  destruct (find (open_for b) (userBooks s)) as [e|] eqn:Eo.
  { eexists _, _, []; rewrite app_nil_r; split.
    2:{ eapply borrow_conflict; eassumption. }
    unfold conflict_message. destruct (userId e =? u); reflexivity. }
  change (fun r => (bookId r =? b) && (userId r =? u)
                   && Bool.eqb (isCurrentlyBorrowed r) false)
    with (closed_pair u b).
  destruct (find (closed_pair u b) (userBooks s)) as [e|] eqn:Ec.
  { eexists _, _, _; split.
    2:{ eapply borrow_reopen; eassumption. }
    reflexivity. }
  eexists _, _, _; split.
  2:{ eapply borrow_create; eassumption. }
  cbv [UserBooksModel.create store journal].
  rewrite (no_open_no_closed_no_row u b _ Eo Ec). reflexivity.
Qed.

(** ** What one return call does *)

Lemma returnBook_eq u b (score : Z) w :
  returnBook u b score w =
  match find (fun x => user_id x =? u) (users (store w)),
        find (fun x => book_id x =? b) (books (store w)) with
  | Some _, Some _ =>
      match find (open_pair u b) (userBooks (store w)) with
      | None =>
          (Fulfilled (mkResult false "This book is not currently borrowed by the user" 400), w)
      | Some _ =>
          (Fulfilled (mkResult true "Book returned successfully" 200),
           mkWorld (returned u b score (store w))
                   (journal w ++ [Updated TUserBooks
                                    (List.length (filter (has_key u b) (userBooks (store w))))]))
      end
  | _, _ => (Fulfilled (mkResult false "User or Book not found" 404), w)
  end.
Proof.
  unfold returned.
  cbv [returnBook bind UserModel.findByPk BookModel.findByPk
       UserBooksModel.findOne UserBooksModel.updateInstance
       UserBooksModel.update ret].
  fold (open_pair u b). fold (close score).
  destruct (find (fun x => user_id x =? u) (users (store w))); [|reflexivity].
  destruct (find (fun x => book_id x =? b) (books (store w))); [|reflexivity].
  destruct (find (open_pair u b) (userBooks (store w))) as [e|] eqn:E; [|reflexivity].
  apply find_some in E as [_ E]. unfold open_pair in E.
  apply andb_true_iff in E as [E _]. apply andb_true_iff in E as [Eu Eb].
  apply Z.eqb_eq in Eu, Eb. rewrite Eu, Eb. reflexivity.
Qed.

Lemma returnBook_null_eq u b w :
  returnBook u b NullScore w =
  match find (fun x => user_id x =? u) (users (store w)),
        find (fun x => book_id x =? b) (books (store w)) with
  | Some _, Some _ =>
      match find (open_pair u b) (userBooks (store w)) with
      | None =>
          (Fulfilled (mkResult false "This book is not currently borrowed by the user" 400), w)
      | Some _ => (Rejected ValidationError, w)
      end
  | _, _ => (Fulfilled (mkResult false "User or Book not found" 404), w)
  end.
Proof.
  cbv [returnBook bind UserModel.findByPk BookModel.findByPk
       UserBooksModel.findOne UserBooksModel.updateInstance throw ret].
  fold (open_pair u b).
  destruct (find (fun x => user_id x =? u) (users (store w))); [|reflexivity].
  destruct (find (fun x => book_id x =? b) (books (store w))); [|reflexivity].
  destruct (find (open_pair u b) (userBooks (store w))); reflexivity.
Qed.

(** ** Consistency is kept by every call *)

Lemma find_open_none b t :
  find (open_for b) t = None -> open_links b t = [].
Proof.
  intros H. rewrite open_links_filter. apply filter_nil_iff.
  intros x Hx. exact (find_none _ _ H x Hx).
Qed.

Lemma existsb_false_filter {A} (p : A -> bool) (l : list A) :
  existsb p l = false -> filter p l = [].
Proof.
  intros H. apply filter_nil_iff. intros x Hx.
  destruct (p x) eqn:E; [|reflexivity].
  assert (existsb p l = true) by (apply existsb_exists; eauto). congruence.
Qed.

Lemma has_key_inj u b u' b' r :
  has_key u b r = true -> has_key u' b' r = true -> u' = u /\ b' = b.
Proof.
  unfold has_key. rewrite !andb_true_iff, !Z.eqb_eq. lia.
Qed.

Lemma consistent_empty : consistent emptyStore.
Proof.
  split; red; simpl; intros; try lia; contradiction.
Qed.

Lemma consistent_same_links s s' :
  userBooks s' = userBooks s ->
  (forall u, exists_user u s -> exists_user u s') ->
  (forall b, exists_book b s -> exists_book b s') ->
  consistent s -> consistent s'.
Proof.
  intros E Hu Hb [pk fk a un].
  split; red; rewrite ?E; auto.
  intros r Hr. destruct (fk r Hr). split; auto.
Qed.

Lemma borrow_outcome_consistent u b s r s' j :
  borrow_outcome u b s r s' j -> consistent s -> consistent s'.
Proof.
  intros Hout Hs. pose proof Hs as [pk fk a un].
  inversion Hout as [ Hnf | e Hu Hb Ho | e Hu Hb Ho Hc | Hu Hb Ho Hc ];
    subst; try assumption.
  - (* a closed row of the pair is opened again *)
    set (g := fun r0 => if pair_of u b r0 then reopen r0 else r0).
    assert (Hkeys : forall x, userId (g x) = userId x /\ bookId (g x) = bookId x).
    { intros x. unfold g. destruct (pair_of u b x); auto. }
    split; red; cbn [userBooks users books].
    + intros u' b'. etransitivity; [|apply (pk u' b')].
      apply filter_map_length_le. intros x _. unfold has_key.
      destruct (Hkeys x) as [-> ->]. auto.
    + intros r0 Hr0. apply in_map_iff in Hr0 as (x & <- & Hx).
      destruct (Hkeys x) as [-> ->]. exact (fk x Hx).
    + intros b'. destruct (Z.eq_dec b' b) as [->|Hne].
      * etransitivity; [|apply (pk u b)].
        apply filter_map_length_le. intros x Hx. rewrite <- pair_of_has_key.
        unfold g. destruct (pair_of u b x) eqn:Ep; [reflexivity|].
        intros Hopen. pose proof (find_none _ _ Ho x Hx) as Hno.
        unfold open_for in Hno. rewrite eqb_true_r in Hno. congruence.
      * etransitivity; [|apply (a b')].
        apply filter_map_length_le. intros x _.
        unfold g. destruct (pair_of u b x) eqn:Ep; [|auto].
        unfold pair_of in Ep. apply andb_true_iff in Ep as [Ep _].
        apply Z.eqb_eq in Ep. cbn [reopen bookId]. rewrite Ep.
        destruct (Z.eqb_spec b b'); [congruence|discriminate].
    + intros r0 Hr0 Hopen. apply in_map_iff in Hr0 as (x & <- & Hx).
      unfold g in *. destruct (pair_of u b x); [reflexivity|]. now apply un.
  - (* a first row of the pair is inserted *)
    pose proof (no_open_no_closed_no_row u b _ Ho Hc) as Hnone.
    split; red; cbn [userBooks users books].
    + intros u' b'. rewrite filter_app, length_app. cbn [filter].
      destruct (has_key u' b' (mkUserBooks u b 0 true)) eqn:Ek.
      * assert (has_key u b (mkUserBooks u b 0 true) = true) as Ek'
            by (unfold has_key; cbn; now rewrite !Z.eqb_refl).
        destruct (has_key_inj _ _ _ _ _ Ek' Ek) as [-> ->].
        rewrite (existsb_false_filter _ _ Hnone). simpl. lia.
      * specialize (pk u' b'). simpl. lia.
    + intros r0 Hr0. apply in_app_iff in Hr0 as [Hr0|[<-|[]]]; [now apply fk|].
      split; assumption.
    + intros b'. unfold open_links. rewrite filter_app, length_app. cbn [filter bookId isCurrentlyBorrowed].
      destruct (Z.eqb_spec b b') as [<-|Hne]; cbn.
      * fold (open_links b (userBooks s)). rewrite (find_open_none _ _ Ho). simpl. lia.
      * specialize (a b'). unfold open_links in a. lia.
    + intros r0 Hr0 Hopen. apply in_app_iff in Hr0 as [Hr0|[<-|[]]]; [now apply un|].
      reflexivity.
Qed.

Lemma returned_consistent u b score s :
  consistent s -> consistent (returned u b score s).
Proof.
  intros Hs. pose proof Hs as [pk fk a un]. unfold returned.
  destruct (find (fun x => user_id x =? u) (users s)); [|assumption].
  destruct (find (fun x => book_id x =? b) (books s)); [|assumption].
  destruct (find (open_pair u b) (userBooks s)); [|assumption].
  set (g := fun r0 => if has_key u b r0 then close score r0 else r0).
  assert (Hkeys : forall x, userId (g x) = userId x /\ bookId (g x) = bookId x).
  { intros x. unfold g. destruct (has_key u b x); auto. }
  split; red; cbn [userBooks users books].
  - intros u' b'. etransitivity; [|apply (pk u' b')].
    apply filter_map_length_le. intros x _. unfold has_key.
    destruct (Hkeys x) as [-> ->]. auto.
  - intros r0 Hr0. apply in_map_iff in Hr0 as (x & <- & Hx).
    destruct (Hkeys x) as [-> ->]. exact (fk x Hx).
  - intros b'. etransitivity; [|apply (a b')].
    apply filter_map_length_le. intros x _.
    unfold g. destruct (has_key u b x); [|auto].
    cbn. rewrite andb_false_r. discriminate.
  - intros r0 Hr0 Hopen. apply in_map_iff in Hr0 as (x & <- & Hx).
    unfold g in *. destruct (has_key u b x); [discriminate|]. now apply un.
Qed.

Lemma serve_consistent c s :
  consistent s -> consistent (store (snd (serve c (fresh s)))).
Proof.
  intros Hs. destruct c as [name|name|u b|u b [score|]]; cbn [serve].
  - unfold postUser. destruct (notEmpty name); [|exact Hs].
    cbn. apply consistent_same_links with (s := s); [reflexivity| | |exact Hs];
      unfold exists_user, exists_book; cbn; intros; auto using find_app_some.
  - unfold postBook. destruct (notEmpty name); [|exact Hs].
    cbn. apply consistent_same_links with (s := s); [reflexivity| | |exact Hs];
      unfold exists_user, exists_book; cbn; intros; auto using find_app_some.
  - unfold postBorrow, try_catch, bind.
    destruct (borrowBook_outcome u b (fresh s)) as (r & s' & j & E & Hout).
    rewrite E. cbn [ret]. destruct (success r); cbn;
      exact (borrow_outcome_consistent _ _ _ _ _ _ Hout Hs).
  - unfold postReturn, try_catch, bind. rewrite returnBook_eq. cbn [fresh store].
    pose proof (returned_consistent u b score s Hs) as Hr.
    destruct (find (fun x => user_id x =? u) (users s)); [|exact Hs].
    destruct (find (fun x => book_id x =? b) (books s)); [|exact Hs].
    destruct (find (open_pair u b) (userBooks s)); [|exact Hs].
    exact Hr.
  - unfold postReturn, try_catch, bind. rewrite returnBook_null_eq. cbn [fresh store].
    destruct (find (fun x => user_id x =? u) (users s)); [|exact Hs].
    destruct (find (fun x => book_id x =? b) (books s)); [|exact Hs].
    destruct (find (open_pair u b) (userBooks s)); exact Hs.
Qed.

Lemma after_consistent calls s :
  consistent s -> consistent (after calls s).
Proof.
  revert s. induction calls as [|c calls IH]; intros s Hs; [exact Hs|].
  apply IH. now apply serve_consistent.
Qed.

Lemma reachable_consistent s : reachable s -> consistent s.
Proof.
  intros [calls ->]. apply after_consistent, consistent_empty.
Qed.

(** ** The joins behind the two read operations *)

Lemma fold_left_running (l : list (User * UserBooks)) (acc : Number) :
  fold_left (fun total user => Number_add total (Number_of_Z (userScore (snd user))))
            l acc
  = fold_left (fun total r => Number_add total (Number_of_Z (userScore r)))
              (map snd l) acc.
Proof.
  revert acc. induction l as [|x l IH]; intros acc; [reflexivity|]. cbn. apply IH.
Qed.

Lemma includeUsers_rows (s : Store) (bk : Book) :
  foreign_keys s ->
  map snd (includeUsers s bk) = links_of_book (book_id bk) (userBooks s).
Proof.
  intros fk. unfold includeUsers, links_of_book.
  assert (H : forall r, In r (userBooks s) -> exists_user (userId r) s)
    by (intros r Hr; apply (fk r Hr)).
  induction (userBooks s) as [|r t IH]; [reflexivity|].
  cbn [flat_map filter]. rewrite map_app, IH by (intros; apply H; now right).
  destruct (bookId r =? book_id bk); [|reflexivity].
  specialize (H r (or_introl eq_refl)). unfold exists_user in H.
  destruct (find (fun u => user_id u =? userId r) (users s)); [reflexivity|congruence].
Qed.

Lemma total_score_closed (rows : list UserBooks) :
  (forall r, In r rows -> isCurrentlyBorrowed r = true -> userScore r = 0) ->
  total_score rows
  = total_score (filter (fun r => negb (isCurrentlyBorrowed r)) rows).
Proof.
  unfold total_score.
  induction rows as [|r rows IH]; intros H; [reflexivity|].
  cbn [fold_right filter].
  rewrite IH by (intros; apply H; [now right|assumption]).
  destruct (isCurrentlyBorrowed r) eqn:E; cbn [negb fold_right].
  - now rewrite (H r (or_introl eq_refl) E).
  - reflexivity.
Qed.

Lemma find_book_id (b : Z) (l : list Book) (bk : Book) :
  find (fun x => book_id x =? b) l = Some bk -> book_id bk = b.
Proof.
  intros H. apply find_some in H as [_ H]. now apply Z.eqb_eq.
Qed.

Lemma find_user_id (u : Z) (l : list User) (usr : User) :
  find (fun x => user_id x =? u) l = Some usr -> user_id usr = u.
Proof.
  intros H. apply find_some in H as [_ H]. now apply Z.eqb_eq.
Qed.

Lemma getBookWithScore_eq (b : Z) (w : World) (bk : Book) :
  find (fun x => book_id x =? b) (books (store w)) = Some bk ->
  let rows := map snd (includeUsers (store w) bk) in
  getBookWithScore b w
  = (Fulfilled
       (Some (mkBookWithScore b (book_name bk)
                (if Number_is_zero (running_total rows) then JsNumber (-1)
                 else JsString
                        (toFixed2
                           (Number_div (running_total rows)
                                       (Number_of_Z (Z.of_nat (List.length rows)))))))),
     w).
Proof.
  intros E. cbv zeta.
  cbv [getBookWithScore bind findBookWithUsers]. rewrite E. cbn [option_map].
  rewrite fold_left_running, (find_book_id _ _ _ E), length_map.
  fold (running_total (map snd (includeUsers (store w) bk))).
  destruct (Number_is_zero (running_total (map snd (includeUsers (store w) bk))));
    reflexivity.
Qed.

Lemma partition_books (l : list (Book * UserBooks)) (ps : list PastBook)
      (qs : list PresentBook) :
  fold_left
    (fun '(pastBooks, presentBooks) book =>
       if isCurrentlyBorrowed (snd book)
       then (pastBooks, presentBooks ++ [mkPresentBook (book_name (fst book))])
       else (pastBooks ++ [mkPastBook (book_name (fst book)) (userScore (snd book))],
             presentBooks))
    l (ps, qs)
  = (ps ++ map past_entry
             (filter (fun bl => negb (isCurrentlyBorrowed (snd bl))) l),
     qs ++ map present_entry
             (filter (fun bl => isCurrentlyBorrowed (snd bl)) l)).
Proof.
  revert ps qs. induction l as [|x l IH]; intros ps qs; cbn [fold_left filter].
  - now rewrite !app_nil_r.
  - destruct (isCurrentlyBorrowed (snd x)); cbn [negb map]; rewrite IH, <- app_assoc;
      reflexivity.
Qed.

Lemma in_includeBooks (s : Store) (usr : User) (bk : Book) (row : UserBooks) :
  In (bk, row) (includeBooks s usr)
  <-> In row (userBooks s) /\ userId row = user_id usr
      /\ find (fun x => book_id x =? bookId row) (books s) = Some bk.
Proof.
  unfold includeBooks. rewrite in_flat_map. split.
  - intros (r & Hr & Hin).
    destruct (Z.eqb_spec (userId r) (user_id usr)); [|contradiction].
    destruct (find (fun x => book_id x =? bookId r) (books s)) eqn:E; [|contradiction].
    destruct Hin as [[= <- <-]|[]]. auto.
  - intros (Hr & Hu & Hb). exists row. split; [exact Hr|].
    rewrite Hu, Z.eqb_refl, Hb. now left.
Qed.

(** ** Binary64 division of integers *)

Lemma digits2_pos_bounds (p : positive) :
  2 ^ (Z.pos (digits2_pos p) - 1) <= Z.pos p < 2 ^ Z.pos (digits2_pos p).
Proof.
  induction p as [p IH|p IH|]; cbn [digits2_pos].
  - rewrite Pos2Z.inj_succ, Z.pow_succ_r by lia.
    replace (Z.succ (Z.pos (digits2_pos p)) - 1) with (Z.succ (Z.pos (digits2_pos p) - 1)) by lia.
    rewrite Z.pow_succ_r by lia. rewrite Pos2Z.inj_xI. lia.
  - rewrite Pos2Z.inj_succ, Z.pow_succ_r by lia.
    replace (Z.succ (Z.pos (digits2_pos p)) - 1) with (Z.succ (Z.pos (digits2_pos p) - 1)) by lia.
    rewrite Z.pow_succ_r by lia. rewrite (Pos2Z.inj_xO p). lia.
  - simpl. lia.
Qed.

Lemma digits2_pos_unique (p : positive) (k : Z) :
  2 ^ (k - 1) <= Z.pos p < 2 ^ k -> Z.pos (digits2_pos p) = k.
Proof.
  intros [Hlo Hhi]. pose proof (digits2_pos_bounds p) as [Blo Bhi].
  assert (0 < k).
  { destruct (Z.ltb_spec 0 k); [assumption|].
    assert (2 ^ k <= 2 ^ 0) by (apply Z.pow_le_mono_r; lia). simpl in *. lia. }
  destruct (Z.lt_trichotomy (Z.pos (digits2_pos p)) k) as [Hlt|[Heq|Hgt]]; [|exact Heq|].
  - assert (2 ^ Z.pos (digits2_pos p) <= 2 ^ (k - 1)) by (apply Z.pow_le_mono_r; lia). lia.
  - assert (2 ^ k <= 2 ^ (Z.pos (digits2_pos p) - 1)) by (apply Z.pow_le_mono_r; lia). lia.
Qed.

Lemma iter_xO_value (p k : positive) :
  Z.pos (Pos.iter xO p k) = Z.pos p * 2 ^ Z.pos k.
Proof.
  induction k as [|k IH] using Pos.peano_ind.
  - simpl. lia.
  - rewrite Pos.iter_succ, (Pos2Z.inj_xO (Pos.iter xO p k)), IH, Pos2Z.inj_succ, Z.pow_succ_r by lia. lia.
Qed.

Lemma fexp_normal (e : Z) : -1021 <= e -> fexp 53 1024 e = e - 53.
Proof. intros H. unfold fexp, emin. lia. Qed.

Lemma round_aux_exact (s : bool) (m : positive) (e : Z) :
  Z.pos (digits2_pos m) = 53 -> -1074 <= e <= 971 ->
  binary_round_aux 53 1024 s (Z.pos m) e loc_Exact = S754_finite s m e.
Proof.
  intros Hd He. unfold binary_round_aux, shr_fexp. cbn [Zdigits2].
  rewrite Hd. rewrite fexp_normal by lia.
  replace (53 + e - 53 - e) with 0 by lia. cbn [shr shr_record_of_loc shr_m loc_of_shr_record round_nearest_even Zdigits2].
  rewrite Hd, fexp_normal by lia.
  replace (53 + e - 53 - e) with 0 by lia. cbn [shr shr_record_of_loc shr_m].
  destruct (Z.leb_spec e (1024 - 53)); [reflexivity|lia].
Qed.

Lemma digits2_pos_le (p : positive) (k : Z) :
  0 <= k -> Z.pos p < 2 ^ k -> Z.pos (digits2_pos p) <= k.
Proof.
  intros Hk Hp. pose proof (digits2_pos_bounds p) as [Blo _].
  destruct (Z.leb_spec (Z.pos (digits2_pos p)) k); [assumption|].
  assert (2 ^ k <= 2 ^ (Z.pos (digits2_pos p) - 1)) by (apply Z.pow_le_mono_r; lia).
  lia.
Qed.

Lemma Number_of_pos (s : bool) (p : positive) :
  Z.pos p < 2 ^ 53 ->
  exists m e,
    binary_round 53 1024 s p 0 = S754_finite s m e /\
    Z.pos (digits2_pos m) = 53 /\ -52 <= e <= 0 /\
    Z.pos m = Z.pos p * 2 ^ (- e).
Proof.
  intros Hp. pose proof (digits2_pos_le p 53 ltac:(lia) Hp) as Hd.
  pose proof (digits2_pos_bounds p) as [Blo Bhi].
  unfold binary_round, shl_align. rewrite fexp_normal by lia.
  destruct (Z.pos (digits2_pos p) + 0 - 53 - 0) as [|k|k] eqn:E; [|lia|].
  - exists p, 0. rewrite round_aux_exact by lia.
    repeat split; try lia.
  - exists (Pos.iter xO p k), (Z.pos (digits2_pos p) + 0 - 53).
    assert (Hv := iter_xO_value p k).
    assert (Hk : Z.pos k = 53 - Z.pos (digits2_pos p)) by lia.
    assert (Hpow : 2 ^ (Z.pos (digits2_pos p) - 1) * 2 ^ Z.pos k = 2 ^ 52).
    { rewrite <- Z.pow_add_r by lia. f_equal. lia. }
    assert (Hpow' : 2 ^ Z.pos (digits2_pos p) * 2 ^ Z.pos k = 2 ^ 53).
    { rewrite <- Z.pow_add_r by lia. f_equal. lia. }
    assert (0 < 2 ^ Z.pos k) by (apply Z.pow_pos_nonneg; lia).
    assert (Hdig : Z.pos (digits2_pos (Pos.iter xO p k)) = 53).
    { apply digits2_pos_unique. rewrite Hv. change (53 - 1) with 52. nia. }
    rewrite round_aux_exact by lia.
    repeat split; try lia.
    rewrite Hv. f_equal. f_equal. lia.
Qed.

Lemma new_location_ok (d r : Z) :
  0 < d -> 0 <= r < d -> loc_ok (new_location d r) r d.
Proof.
  intros Hd Hr. unfold new_location, new_location_even, new_location_odd.
  destruct (Z.even d) eqn:Ev; destruct (Z.eqb_spec r 0) as [->|Hr0];
    try reflexivity.
  - destruct (Z.compare_spec (2 * r) d); cbn [loc_ok]; lia.
  - assert (Hodd : Z.odd d = true) by (rewrite <- Z.negb_even, Ev; reflexivity).
    apply Z.odd_spec in Hodd as [k Hk].
    destruct (Z.compare_spec (2 * r + 1) d); cbn [loc_ok]; lia.
Qed.

Lemma stage1 (q e r d : Z) (l : location) (mrs' : shr_record) (e' : Z) :
  0 < d -> 0 <= r < d -> loc_ok l r d ->
  2 ^ 52 <= q < 2 ^ 54 -> -1021 <= e ->
  shr_fexp 53 1024 q e l = (mrs', e') ->
  let m1 := round_nearest_even (shr_m mrs') (loc_of_shr_record mrs') in
  e <= e' <= e + 1 /\ 2 ^ 52 <= m1 <= 2 ^ 53 /\
  2 * Z.abs (m1 * 2 ^ (e' - e) * d - (q * d + r)) <= d * 2 ^ (e' - e).
Proof.
  intros Hd Hr Hl Hq He Hshr.
  destruct q as [|pq|pq]; try lia.
  unfold shr_fexp in Hshr. cbn [Zdigits2] in Hshr.
  destruct (Z.ltb_spec (Z.pos pq) (2 ^ 53)) as [Hsmall|Hbig].
  - assert (Hdig : Z.pos (digits2_pos pq) = 53)
      by (apply digits2_pos_unique; change (53 - 1) with 52; lia).
    rewrite Hdig, fexp_normal in Hshr by lia.
    replace (53 + e - 53 - e) with 0 in Hshr by lia. cbn [shr] in Hshr.
    injection Hshr as <- <-. replace (e - e) with 0 by lia.
    rewrite Z.pow_0_r, !Z.mul_1_r.
    destruct l as [|[| |]]; cbn [loc_ok] in Hl;
      cbn [shr_record_of_loc shr_m loc_of_shr_record round_nearest_even].
    + lia.
    + destruct (Z.even (Z.pos pq)); lia.
    + lia.
    + lia.
  - assert (Hdig : Z.pos (digits2_pos pq) = 54)
      by (apply digits2_pos_unique; change (54 - 1) with 53; lia).
    rewrite Hdig, fexp_normal in Hshr by lia.
    replace (54 + e - 53 - e) with 1 in Hshr by lia.
    cbn [shr iter_pos] in Hshr.
    injection Hshr as <- <-. replace (e + 1 - e) with 1 by lia.
    rewrite Z.pow_1_r.
    destruct pq as [p|p|]; [| |simpl in Hbig; lia].
    + destruct l as [|[| |]]; cbn [loc_ok] in Hl;
        cbn [shr_record_of_loc shr_1 orb shr_m loc_of_shr_record round_nearest_even];
        rewrite (Pos2Z.inj_xI p) in *;
        try destruct (Z.even (Z.pos p)); lia.
    + destruct l as [|[| |]]; cbn [loc_ok] in Hl;
        cbn [shr_record_of_loc shr_1 orb shr_m loc_of_shr_record round_nearest_even];
        rewrite (Pos2Z.inj_xO p) in *;
        try destruct (Z.even (Z.pos p)); lia.
Qed.

Lemma stage2 (s : bool) (m1 e : Z) :
  2 ^ 52 <= m1 <= 2 ^ 53 -> -1021 <= e <= 900 ->
  exists m e2,
    (let '(mrs'', e'') := shr_fexp 53 1024 m1 e loc_Exact in
     match shr_m mrs'' with
     | Z0 => S754_zero s
     | Zpos m => if Z.leb e'' (Z.sub 1024 53) then S754_finite s m e''
                 else S754_infinity s
     | _ => S754_nan
     end) = S754_finite s m e2 /\
    e <= e2 <= e + 1 /\ 2 ^ 52 <= Z.pos m < 2 ^ 53 /\
    Z.pos m * 2 ^ (e2 - e) = m1.
Proof.
  intros Hm He. destruct (Z.ltb_spec m1 (2 ^ 53)) as [Hsmall|Hbig].
  - destruct m1 as [|p1|p1]; try lia.
    assert (Hdig : Z.pos (digits2_pos p1) = 53)
      by (apply digits2_pos_unique; change (53 - 1) with 52; lia).
    unfold shr_fexp. cbn [Zdigits2]. rewrite Hdig, fexp_normal by lia.
    replace (53 + e - 53 - e) with 0 by lia.
    cbn [shr shr_record_of_loc shr_m].
    destruct (Z.leb_spec e (1024 - 53)); [|lia].
    exists p1, e. split; [reflexivity|].
    replace (e - e) with 0 by lia. rewrite Z.pow_0_r. lia.
  - assert (m1 = 9007199254740992) as -> by (change (2 ^ 53) with 9007199254740992 in *; lia).
    unfold shr_fexp.
    change (Zdigits2 9007199254740992) with 54.
    rewrite fexp_normal by lia.
    replace (54 + e - 53 - e) with 1 by lia.
    cbn [shr iter_pos shr_record_of_loc shr_1 orb shr_m].
    destruct (Z.leb_spec (e + 1) (1024 - 53)); [|lia].
    eexists _, (e + 1). split; [reflexivity|].
    replace (e + 1 - e) with 1 by lia. rewrite Z.pow_1_r.
    change (2 ^ 52) with 4503599627370496.
    change (2 ^ 53) with 9007199254740992. lia.
Qed.

(** Rounding a quotient with 53 or 54 significant bits. *)
Lemma round_aux_div (s : bool) (q e r d : Z) (l : location) :
  0 < d -> 0 <= r < d -> loc_ok l r d ->
  2 ^ 52 <= q < 2 ^ 54 -> -1021 <= e <= 800 ->
  exists m e2,
    binary_round_aux 53 1024 s q e l = S754_finite s m e2 /\
    e <= e2 <= e + 2 /\ 2 ^ 52 <= Z.pos m < 2 ^ 53 /\
    2 * Z.abs (Z.pos m * 2 ^ (e2 - e) * d - (q * d + r)) <= d * 2 ^ (e2 - e).
Proof.
  intros Hd Hr Hl Hq He. unfold binary_round_aux.
  destruct (shr_fexp 53 1024 q e l) as [mrs' e'] eqn:E1.
  destruct (stage1 q e r d l mrs' e' Hd Hr Hl Hq ltac:(lia) E1)
    as (He' & Hm1 & Hb).
  destruct (stage2 s _ e' Hm1 ltac:(lia)) as (m & e2 & E2 & He2 & Hm & Hv).
  exists m, e2. split; [exact E2|]. split; [lia|]. split; [exact Hm|].
  rewrite <- Hv in Hb.
  replace (e2 - e) with ((e2 - e') + (e' - e)) by lia.
  rewrite Z.pow_add_r by lia.
  assert (1 <= 2 ^ (e2 - e')) by (apply (Z.pow_le_mono_r 2 0); lia).
  assert (0 < 2 ^ (e' - e)) by (apply Z.pow_pos_nonneg; lia).
  rewrite Z.mul_assoc. nia.
Qed.

Lemma digits53_range (m : positive) :
  Z.pos (digits2_pos m) = 53 -> 2 ^ 52 <= Z.pos m < 2 ^ 53.
Proof.
  intros H. pose proof (digits2_pos_bounds m) as B. rewrite H in B. exact B.
Qed.

(** Dividing two normal numbers with exponents in [-52, 0]. *)
Lemma SFdiv_normal (sx sy : bool) (mx my : positive) (ex ey : Z) :
  Z.pos (digits2_pos mx) = 53 -> Z.pos (digits2_pos my) = 53 ->
  -52 <= ex <= 0 -> -52 <= ey <= 0 ->
  exists m e2,
    SFdiv 53 1024 (S754_finite sx mx ex) (S754_finite sy my ey)
    = S754_finite (xorb sx sy) m e2 /\
    ex - ey - 53 <= e2 <= ex - ey - 53 + 2 /\
    2 ^ 52 <= Z.pos m < 2 ^ 53 /\
    2 * Z.abs (Z.pos m * 2 ^ (e2 - (ex - ey - 53)) * Z.pos my - Z.pos mx * 2 ^ 53)
    <= Z.pos my * 2 ^ (e2 - (ex - ey - 53)).
Proof.
  intros Hdx Hdy Hex Hey.
  pose proof (digits53_range mx Hdx) as Hmx.
  pose proof (digits53_range my Hdy) as Hmy.
  unfold SFdiv, SFdiv_core_binary. cbn [Zdigits2]. rewrite Hdx, Hdy.
  rewrite fexp_normal by lia.
  rewrite Z.min_l by lia.
  replace (ex - ey - (53 + ex - (53 + ey) - 53)) with 53 by lia.
  cbv iota beta. rewrite Z.shiftl_mul_pow2 by lia.
  pose proof (Z_div_mod (Z.pos mx * 2 ^ 53) (Z.pos my) ltac:(lia)) as Hdm.
  destruct (Z.div_eucl (Z.pos mx * 2 ^ 53) (Z.pos my)) as [q r].
  destruct Hdm as [Hdm Hr].
  assert (Hq : 2 ^ 52 <= q < 2 ^ 54).
  { change (2 ^ 52) with 4503599627370496 in *.
    change (2 ^ 53) with 9007199254740992 in *.
    change (2 ^ 54) with 18014398509481984. nia. }
  replace (53 + ex - (53 + ey) - 53) with (ex - ey - 53) by lia.
  destruct (round_aux_div (xorb sx sy) q (ex - ey - 53) r (Z.pos my)
              (new_location (Z.pos my) r) ltac:(lia) Hr
              (new_location_ok (Z.pos my) r ltac:(lia) Hr) Hq ltac:(lia))
    as (m & e2 & E & He2 & Hm & Hb).
  exists m, e2. split; [exact E|]. split; [lia|]. split; [exact Hm|].
  rewrite Hdm. replace (Z.pos my * q + r) with (q * Z.pos my + r) by lia. exact Hb.
Qed.

Lemma abs_cancel (K X Y W : Z) :
  0 < K -> 2 * Z.abs (X * K - Y * K) <= W * K -> 2 * Z.abs (X - Y) <= W.
Proof.
  intros HK H. replace (X * K - Y * K) with ((X - Y) * K) in H by ring.
  rewrite Z.abs_mul, (Z.abs_eq K) in H by lia. nia.
Qed.

(** The binary64 quotient of two integers below 2^53 is within a relative
    error of 2^-53 of the exact quotient. *)
Lemma Number_div_of_Z (t c : Z) :
  0 < Z.abs t < 2 ^ 53 -> 0 < c < 2 ^ 53 ->
  exists m e,
    Number_div (Number_of_Z t) (Number_of_Z c) = S754_finite (t <? 0) m e /\
    2 ^ 53 * Z.abs (numerator m e * c - Z.abs t * denominator e)
    <= c * numerator m e.
Proof.
  intros Ht Hc.
  assert (Hx : exists mx ex,
             Number_of_Z t = S754_finite (t <? 0) mx ex /\
             Z.pos (digits2_pos mx) = 53 /\ -52 <= ex <= 0 /\
             Z.pos mx = Z.abs t * 2 ^ (- ex)).
  { destruct t as [|pt|pt]; [simpl in Ht; lia| |].
    - apply (Number_of_pos false pt). simpl in Ht. lia.
    - apply (Number_of_pos true pt). simpl in Ht. lia. }
  assert (Hy : exists my ey,
             Number_of_Z c = S754_finite false my ey /\
             Z.pos (digits2_pos my) = 53 /\ -52 <= ey <= 0 /\
             Z.pos my = c * 2 ^ (- ey)).
  { destruct c as [|pc|pc]; try lia. apply (Number_of_pos false pc). lia. }
  destruct Hx as (mx & ex & Ex & Hdx & Hex & Hvx).
  destruct Hy as (my & ey & Ey & Hdy & Hey & Hvy).
  destruct (SFdiv_normal (t <? 0) false mx my ex ey Hdx Hdy Hex Hey)
    as (m & e & E & He & Hm & Hb).
  rewrite xorb_false_r in E.
  exists m, e. unfold Number_div. rewrite Ex, Ey. split; [exact E|].
  rewrite Hvx, Hvy in Hb.
  set (T := Z.abs t) in *.
  unfold numerator, denominator.
  set (u := Z.max e 0). set (v := Z.max (- e) 0).
  assert (Huv : e = u - v /\ 0 <= u /\ 0 <= v /\ v <= - ex + 53)
    by (unfold u, v; lia).
  set (K := 2 ^ (- ex + 53 - v)).
  assert (HK : 0 < K) by (apply Z.pow_pos_nonneg; lia).
  set (g := e - (ex - ey - 53)) in *.
  assert (H1 : 2 ^ g * (c * 2 ^ (- ey)) = c * 2 ^ u * K).
  { transitivity (c * 2 ^ (g + - ey)).
    - rewrite Z.pow_add_r by (unfold g; lia). ring.
    - transitivity (c * 2 ^ (u + (- ex + 53 - v))).
      + f_equal. f_equal. unfold g. lia.
      + rewrite Z.pow_add_r by lia. unfold K. ring. }
  assert (H2 : 2 ^ (- ex) * 2 ^ 53 = 2 ^ v * K).
  { unfold K. rewrite <- !Z.pow_add_r by lia. f_equal. lia. }
  assert (Hb' : 2 * Z.abs ((Z.pos m * 2 ^ u * c) * K - (T * 2 ^ v) * K)
                <= (c * 2 ^ u) * K).
  { replace (Z.pos m * 2 ^ u * c * K) with (Z.pos m * (c * 2 ^ u * K)) by ring.
    replace (T * 2 ^ v * K) with (T * (2 ^ v * K)) by ring.
    rewrite <- H1, <- H2.
    replace (Z.pos m * (2 ^ g * (c * 2 ^ (- ey))))
      with (Z.pos m * 2 ^ g * (c * 2 ^ (- ey))) by ring.
    replace (T * (2 ^ (- ex) * 2 ^ 53)) with (T * 2 ^ (- ex) * 2 ^ 53) by ring.
    rewrite (Z.mul_comm (2 ^ g)). exact Hb. }
  apply abs_cancel in Hb'; [|exact HK].
  assert (0 < 2 ^ u) by (apply Z.pow_pos_nonneg; lia).
  change (2 ^ 52) with 4503599627370496 in *.
  change (2 ^ 53) with 9007199254740992 in *.
  nia.
Qed.

(** ** Binary64 addition of integers *)

Lemma shr_1_double (z : Z) :
  0 < z ->
  shr_1 (Build_shr_record (2 * z) false false) = Build_shr_record z false false.
Proof. intros Hz. destruct z; try lia. reflexivity. Qed.

Lemma iter_pos_shr_exact (n : positive) (z : Z) :
  0 < z ->
  iter_pos shr_1 n (Build_shr_record (z * 2 ^ Z.pos n) false false)
  = Build_shr_record z false false.
Proof.
  revert z. induction n as [n IH|n IH|]; intros z Hz; cbn [iter_pos].
  - rewrite Pos2Z.inj_xI.
    replace (z * 2 ^ (2 * Z.pos n + 1)) with (2 * (z * 2 ^ Z.pos n * 2 ^ Z.pos n))
      by (replace (2 * Z.pos n + 1) with (Z.pos n + Z.pos n + 1) by lia;
          rewrite !Z.pow_add_r by lia; ring).
    assert (0 < 2 ^ Z.pos n) by (apply Z.pow_pos_nonneg; lia).
    rewrite shr_1_double by nia. rewrite IH by nia. apply IH. exact Hz.
  - rewrite (Pos2Z.inj_xO n).
    replace (z * 2 ^ (2 * Z.pos n)) with (z * 2 ^ Z.pos n * 2 ^ Z.pos n)
      by (replace (2 * Z.pos n) with (Z.pos n + Z.pos n) by lia;
          rewrite Z.pow_add_r by lia; ring).
    assert (0 < 2 ^ Z.pos n) by (apply Z.pow_pos_nonneg; lia).
    rewrite IH by nia. apply IH. exact Hz.
  - rewrite Z.pow_1_r, Z.mul_comm. now apply shr_1_double.
Qed.

(** A positive integer [q * 2^eq] that is a 53-bit [m * 2^e] rounds to
    exactly that. *)
Lemma binary_round_canonical (s : bool) (q : positive) (eq : Z) (m : positive) (e : Z) :
  Z.pos (digits2_pos m) = 53 -> -1074 <= e <= 971 ->
  (e <= eq /\ Z.pos m = Z.pos q * 2 ^ (eq - e)) \/
  (eq < e /\ Z.pos q = Z.pos m * 2 ^ (e - eq)) ->
  binary_round 53 1024 s q eq = S754_finite s m e.
Proof.
  intros Hd He Hv. pose proof (digits53_range m Hd) as Hm.
  unfold binary_round.
  destruct Hv as [[Hle Hv]|[Hlt Hv]].
  - assert (Hdq : Z.pos (digits2_pos q) = 53 - (eq - e)).
    { apply digits2_pos_unique.
      assert (Hp : 0 < 2 ^ (eq - e)) by (apply Z.pow_pos_nonneg; lia).
      assert (H1 : 2 ^ (53 - (eq - e) - 1) * 2 ^ (eq - e) = 2 ^ 52).
      { assert (0 < Z.pos q) by lia.
        assert (eq - e <= 52).
        { destruct (Z.leb_spec (eq - e) 52); [assumption|].
          assert (2 ^ 53 <= 2 ^ (eq - e)) by (apply Z.pow_le_mono_r; lia). nia. }
        rewrite <- Z.pow_add_r by lia. f_equal. lia. }
      assert (eq - e <= 52).
      { destruct (Z.leb_spec (eq - e) 52); [assumption|].
        assert (2 ^ 53 <= 2 ^ (eq - e)) by (apply Z.pow_le_mono_r; lia). nia. }
      assert (H2 : 2 ^ (53 - (eq - e)) * 2 ^ (eq - e) = 2 ^ 53).
      { rewrite <- Z.pow_add_r by lia. f_equal. lia. }
      nia. }
    rewrite Hdq, fexp_normal by lia. unfold shl_align.
    destruct (53 - (eq - e) + eq - 53 - eq) as [|d|d] eqn:Ed; [|lia|].
    + assert (eq = e) by lia. subst eq. rewrite Z.sub_diag, Z.pow_0_r, Z.mul_1_r in Hv.
      injection Hv as ->. apply round_aux_exact; [exact Hd|lia].
    + assert (Hq : Pos.iter xO q d = m).
      { apply Pos2Z.inj. rewrite iter_xO_value, Hv. f_equal. f_equal. lia. }
      rewrite Hq. replace (53 - (eq - e) + eq - 53) with e by lia.
      apply round_aux_exact; [exact Hd|lia].
  - assert (Hp : 0 < 2 ^ (e - eq)) by (apply Z.pow_pos_nonneg; lia).
    assert (Hdq : Z.pos (digits2_pos q) = 53 + (e - eq)).
    { apply digits2_pos_unique. rewrite Hv.
      replace (53 + (e - eq) - 1) with (52 + (e - eq)) by lia.
      rewrite !Z.pow_add_r by lia. nia. }
    rewrite Hdq, fexp_normal by lia. unfold shl_align.
    destruct (53 + (e - eq) + eq - 53 - eq) as [|d|d] eqn:Ed; [lia| |lia].
    unfold binary_round_aux, shr_fexp. cbn [Zdigits2].
    rewrite Hdq, fexp_normal by lia. rewrite Ed. cbn [shr shr_record_of_loc].
    rewrite Hv. replace (e - eq) with (Z.pos d) by lia.
    rewrite iter_pos_shr_exact by lia.
    cbn [shr_m loc_of_shr_record round_nearest_even Zdigits2].
    rewrite Hd, fexp_normal by lia.
    replace (53 + (eq + Z.pos d) - 53 - (eq + Z.pos d)) with 0 by lia.
    cbn [shr shr_record_of_loc shr_m].
    replace (eq + Z.pos d) with e by lia.
    destruct (Z.leb_spec e (1024 - 53)); [reflexivity|lia].
Qed.

Lemma Number_of_Z_nonzero (z : Z) :
  0 < Z.abs z < 2 ^ 53 ->
  exists m e,
    Number_of_Z z = S754_finite (z <? 0) m e /\
    Z.pos (digits2_pos m) = 53 /\ -52 <= e <= 0 /\
    Z.pos m = Z.abs z * 2 ^ (- e).
Proof.
  intros Hz. destruct z as [|p|p]; [simpl in Hz; lia| |].
  - apply (Number_of_pos false p). simpl in Hz. lia.
  - apply (Number_of_pos true p). simpl in Hz. lia.
Qed.

Lemma shl_align_value (m : positive) (e e' : Z) :
  e' <= e -> Z.pos (fst (shl_align m e e')) = Z.pos m * 2 ^ (e - e').
Proof.
  intros H. unfold shl_align. destruct (e' - e) as [|d|d] eqn:E; cbn [fst].
  - replace (e - e') with 0 by lia. rewrite Z.pow_0_r. lia.
  - lia.
  - rewrite iter_xO_value. f_equal. f_equal. lia.
Qed.

Lemma cond_Zopp_abs (z K : Z) :
  cond_Zopp (z <? 0) (Z.abs z * K) = z * K.
Proof.
  unfold cond_Zopp. destruct (Z.ltb_spec z 0); lia.
Qed.

(** Scaling an integer below 2^53 by a power of two does not change what
    it rounds to. *)
Lemma binary_normalize_scaled (c k : Z) :
  Z.abs c < 2 ^ 53 -> 0 <= k <= 52 ->
  binary_normalize 53 1024 (c * 2 ^ k) (- k) false = Number_of_Z c.
Proof.
  intros Hc Hk.
  assert (HK : 0 < 2 ^ k) by (apply Z.pow_pos_nonneg; lia).
  destruct (Z.eq_dec c 0) as [->|Hne]; [reflexivity|].
  destruct (Number_of_Z_nonzero c ltac:(lia)) as (m & e & E & Hd & He & Hv).
  rewrite E. unfold binary_normalize.
  assert (Hcase : (e <= - k /\ Z.pos m = (Z.abs c * 2 ^ k) * 2 ^ (- k - e)) \/
                  (- k < e /\ Z.abs c * 2 ^ k = Z.pos m * 2 ^ (e - - k))).
  { destruct (Z.leb_spec e (- k)); [left|right]; (split; [lia|]); rewrite Hv.
    - rewrite <- Z.mul_assoc, <- Z.pow_add_r by lia. f_equal. f_equal. lia.
    - rewrite <- Z.mul_assoc, <- Z.pow_add_r by lia. f_equal. f_equal. lia. }
  destruct (c * 2 ^ k) as [|q|q] eqn:Eq.
  - nia.
  - assert (0 < c) by nia.
    replace (c <? 0) with false by (symmetry; apply Z.ltb_ge; lia).
    apply binary_round_canonical; [exact Hd|lia|].
    rewrite Z.abs_eq, Eq in Hcase by lia. exact Hcase.
  - assert (c < 0) by nia.
    replace (c <? 0) with true by (symmetry; apply Z.ltb_lt; lia).
    apply binary_round_canonical; [exact Hd|lia|].
    replace (Z.abs c * 2 ^ k) with (Z.pos q) in Hcase
      by (rewrite Z.abs_neq by lia; lia).
    exact Hcase.
Qed.

(** Below 2^53 in magnitude, binary64 addition of integers is exact. *)
Lemma Number_add_exact (a b : Z) :
  Z.abs a < 2 ^ 53 -> Z.abs b < 2 ^ 53 -> Z.abs (a + b) < 2 ^ 53 ->
  Number_add (Number_of_Z a) (Number_of_Z b) = Number_of_Z (a + b).
Proof.
  intros Ha Hb Hab.
  destruct (Z.eq_dec a 0) as [->|Hna].
  { rewrite Z.add_0_l. destruct (Z.eq_dec b 0) as [->|Hnb]; [reflexivity|].
    destruct (Number_of_Z_nonzero b ltac:(lia)) as (m & e & E & _).
    rewrite E. reflexivity. }
  destruct (Z.eq_dec b 0) as [->|Hnb].
  { rewrite Z.add_0_r.
    destruct (Number_of_Z_nonzero a ltac:(lia)) as (m & e & E & _).
    rewrite E. reflexivity. }
  destruct (Number_of_Z_nonzero a ltac:(lia)) as (ma & ea & Ea & _ & Hea & Hva).
  destruct (Number_of_Z_nonzero b ltac:(lia)) as (mb & eb & Eb & _ & Heb & Hvb).
  rewrite Ea, Eb. unfold Number_add, SFadd.
  rewrite !shl_align_value by lia. rewrite Hva, Hvb.
  set (ez := Z.min ea eb).
  assert (Hez : -52 <= ez <= 0 /\ ez <= ea /\ ez <= eb) by (unfold ez; lia).
  replace (Z.abs a * 2 ^ (- ea) * 2 ^ (ea - ez)) with (Z.abs a * 2 ^ (- ez))
    by (rewrite <- Z.mul_assoc, <- Z.pow_add_r by lia; f_equal; f_equal; lia).
  replace (Z.abs b * 2 ^ (- eb) * 2 ^ (eb - ez)) with (Z.abs b * 2 ^ (- ez))
    by (rewrite <- Z.mul_assoc, <- Z.pow_add_r by lia; f_equal; f_equal; lia).
  rewrite !cond_Zopp_abs, <- Z.mul_add_distr_r.
  replace ez with (- (- ez)) at 2 by lia.
  apply binary_normalize_scaled; lia.
Qed.

Lemma Number_is_zero_of_Z (z : Z) :
  Z.abs z < 2 ^ 53 -> Number_is_zero (Number_of_Z z) = (z =? 0).
Proof.
  intros Hz. destruct (Z.eqb_spec z 0) as [->|Hne]; [reflexivity|].
  destruct (Number_of_Z_nonzero z ltac:(lia)) as (m & e & E & _). now rewrite E.
Qed.

(** Where every score and every running sum is below 2^53 in magnitude,
    the binary64 loop computes the exact sum. *)
Lemma running_fold_exact (rows : list UserBooks) (acc : Z) :
  Z.abs acc < 2 ^ 53 ->
  running_sums_below (2 ^ 53) acc rows = true ->
  fold_left (fun total r => Number_add total (Number_of_Z (userScore r)))
            rows (Number_of_Z acc)
  = Number_of_Z (acc + total_score rows).
Proof.
  revert acc. induction rows as [|r rows IH]; intros acc Hacc Hsafe.
  - cbn. now rewrite Z.add_0_r.
  - cbn [running_sums_below] in Hsafe.
    apply andb_true_iff in Hsafe as [Hsafe Hrest].
    apply andb_true_iff in Hsafe as [Hr Hsum].
    apply Z.ltb_lt in Hr, Hsum.
    cbn [fold_left]. rewrite Number_add_exact by assumption.
    rewrite IH by assumption. f_equal. unfold total_score. cbn [fold_right]. lia.
Qed.

Lemma running_total_exact (rows : list UserBooks) :
  running_sums_below (2 ^ 53) 0 rows = true ->
  running_total rows = Number_of_Z (total_score rows)
  /\ Z.abs (total_score rows) < 2 ^ 53.
Proof.
  intros Hsafe. split.
  - exact (running_fold_exact rows 0 ltac:(cbn; lia) Hsafe).
  - assert (H : forall acc, Z.abs acc < 2 ^ 53 ->
                            running_sums_below (2 ^ 53) acc rows = true ->
                            Z.abs (acc + total_score rows) < 2 ^ 53).
    { clear Hsafe. induction rows as [|r rows IH]; intros acc Hacc Hs.
      - cbn. now rewrite Z.add_0_r.
      - cbn [running_sums_below] in Hs.
        apply andb_true_iff in Hs as [Hs Hrest].
        apply andb_true_iff in Hs as [_ Hsum]. apply Z.ltb_lt in Hsum.
        specialize (IH _ Hsum Hrest). unfold total_score in *.
        cbn [fold_right]. now rewrite Z.add_assoc. }
    exact (H 0 ltac:(cbn; lia) Hsafe).
Qed.

Lemma running_total_zero (rows : list UserBooks) :
  (forall r, In r rows -> userScore r = 0) ->
  running_total rows = S754_zero false.
Proof.
  unfold running_total. induction rows as [|r rows IH]; intros H; [reflexivity|].
  cbn [fold_left]. rewrite (H r (or_introl eq_refl)). cbn.
  apply IH. intros x Hx. apply H. now right.
Qed.

(** ** Rounding in [toFixed2] *)

(** [hundredths num den] is a nearest integer to [100 * num / den], the
    upper one on a tie. *)
Lemma hundredths_nearest (num den : Z) :
  0 < den ->
  200 * num - den < 2 * den * hundredths num den <= 200 * num + den.
Proof.
  intros Hden. unfold hundredths.
  pose proof (Z.div_mod (200 * num + den) (2 * den) ltac:(lia)) as Hdm.
  pose proof (Z.mod_pos_bound (200 * num + den) (2 * den) ltac:(lia)) as Hr.
  lia.
Qed.

(** A finite quotient below 10^21 in magnitude is printed as its nearest
    number of hundredths, with the sign in front. *)
Lemma toFixed2_finite (sign : bool) (m : positive) (e : Z) :
  numerator m e < 10 ^ 21 * denominator e ->
  exists n,
    toFixed2 (S754_finite sign m e)
    = Digits ((if sign then "-" else EmptyString) ++ point2 n)%string /\
    200 * numerator m e - denominator e
    < 2 * denominator e * n <= 200 * numerator m e + denominator e.
Proof.
  intros Hsmall. exists (hundredths (numerator m e) (denominator e)). split.
  - unfold toFixed2.
    destruct (Z.leb_spec (10 ^ 21 * denominator e) (numerator m e)); [lia|reflexivity].
  - apply hundredths_nearest. unfold denominator. apply Z.pow_pos_nonneg; lia.
Qed.

Lemma quotient_hundredths (t c : Z) :
  0 < Z.abs t < 2 ^ 44 -> 0 < c < 2 ^ 53 ->
  exists m e,
    Number_div (Number_of_Z t) (Number_of_Z c) = S754_finite (t <? 0) m e /\
    numerator m e < 10 ^ 21 * denominator e /\
    2 * Z.abs (hundredths (numerator m e) (denominator e) * c - 100 * Z.abs t) <= c.
Proof.
  intros Ht Hc.
  destruct (Number_div_of_Z t c) as (m & e & E & Hb); [|exact Hc|].
  { change (2 ^ 44) with 17592186044416 in Ht.
    change (2 ^ 53) with 9007199254740992. lia. }
  exists m, e. split; [exact E|].
  assert (Hden : 0 < denominator e)
    by (unfold denominator; apply Z.pow_pos_nonneg; lia).
  assert (Hnum : 0 < numerator m e).
  { unfold numerator. apply Z.mul_pos_pos; [lia|]. apply Z.pow_pos_nonneg; lia. }
  pose proof (hundredths_nearest (numerator m e) (denominator e) Hden) as Hn.
  set (num := numerator m e) in *. set (den := denominator e) in *.
  set (n := hundredths num den) in *. set (T := Z.abs t) in *.
  change (2 ^ 44) with 17592186044416 in Ht.
  change (2 ^ 53) with 9007199254740992 in *.
  change (10 ^ 21) with 1000000000000000000000.
  assert (Hnc : num * c <= 2 * T * den) by nia.
  assert (HA : 200 * Z.abs (num * c - T * den) < den) by nia.
  split; [nia|].
  assert (Hden' : Z.abs (den * (2 * n * c - 200 * T)) < den * (c + 1)).
  { replace (den * (2 * n * c - 200 * T))
      with (c * (2 * den * n - 200 * num) + 200 * (num * c - T * den)) by ring.
    nia. }
  rewrite Z.abs_mul, (Z.abs_eq den) in Hden' by lia.
  assert (Z.abs (2 * n * c - 200 * T) < c + 1) by nia.
  lia.
Qed.

(** ** Worked runs *)

Example run_borrow_then_conflict :
  map (fun c => fst (serve c (fresh alice_holds_dune)))
      [BorrowBook 1 1; BorrowBook 2 1; BorrowBook 3 1]
  = [Fulfilled (mkResponse 400 (JError "Book is already borrowed by this user"));
     Fulfilled (mkResponse 400 (JError "Book is already borrowed by someone else"));
     Fulfilled (mkResponse 404 (JError "User or Book not found"))].
Proof. reflexivity. Qed.

Example run_return_then_reborrow :
  userBooks alice_returned_dune = [mkUserBooks 1 1 4 false] /\
  userBooks (after [BorrowBook 1 1] alice_returned_dune) = [mkUserBooks 1 1 0 true] /\
  userBooks (after [BorrowBook 2 1] alice_returned_dune)
  = [mkUserBooks 1 1 4 false; mkUserBooks 2 1 0 true].
Proof. repeat split. Qed.

Example run_scores :
  map (fun s => option_map score (match fst (getBookWithScore 1 (fresh s)) with
                                  | Fulfilled b => b
                                  | Rejected _ => None
                                  end))
      [alice_holds_dune; alice_returned_dune;
       after [BorrowBook 2 1] alice_returned_dune;
       after [BorrowBook 1 1] alice_returned_dune]
  = [Some (JsNumber (-1)); Some (JsString (Digits "4.00"));
     Some (JsString (Digits "2.00")); Some (JsNumber (-1))].
Proof. vm_compute. reflexivity. Qed.

Example run_toFixed2 :
  map (fun '(t, c) => toFixed2 (Number_div (Number_of_Z t) (Number_of_Z c)))
      [(1, 8); (43, 40); (201, 200); (-1, 800); (-1234567, 8)]
  = [Digits "0.13"; Digits "1.07"; Digits "1.00"; Digits "-0.00";
     Digits "-154320.88"].
Proof. vm_compute. reflexivity. Qed.

(** * The claims *)

(** C1. Starting from the empty store, after every sequence of
    CreateUser/CreateBook/BorrowBook/ReturnBook calls served one after the
    other, every book id has at most one Loan-link row with
    isCurrentlyBorrowed = true. *)
Theorem C1_at_most_one_open_link (calls : list Call) (b : Z) :
  (List.length (open_links b (userBooks (after calls emptyStore))) <= 1)%nat.
Proof.
  exact (cons_A _ (after_consistent calls _ consistent_empty) b).
Qed.

(** C2. When the user and the book exist, borrowBook fails with Conflict
    exactly when some Loan-link row of the book is open; the message is
    the "this user" one when the open row found belongs to the requester
    and the "someone else" one otherwise; with at most one open row per
    book (Invariant A) that row is any open row of the book.  Both cases
    are failures. *)
Theorem C2_borrow_conflict_iff (u b : Z) (w : World) :
  exists_user u (store w) -> exists_book b (store w) ->
  exists r w',
    borrowBook u b w = (Fulfilled r, w') /\
    (Conflict r <->
     exists e, In e (userBooks (store w)) /\ bookId e = b
               /\ isCurrentlyBorrowed e = true) /\
    (Conflict r ->
     exists e, In e (userBooks (store w)) /\ bookId e = b
               /\ isCurrentlyBorrowed e = true
               /\ (userId e = u ->
                   message r = "Book is already borrowed by this user")
               /\ (userId e <> u ->
                   message r = "Book is already borrowed by someone else")) /\
    (invariant_A (store w) ->
     forall e, In e (userBooks (store w)) -> bookId e = b ->
               isCurrentlyBorrowed e = true ->
               success r = false /\
               message r = if userId e =? u
                           then "Book is already borrowed by this user"
                           else "Book is already borrowed by someone else").
Proof.
  intros Hu Hb.
  destruct (borrowBook_outcome u b w) as (r & s' & j & E & Hout).
  exists r, (mkWorld s' (journal w ++ j)). split; [exact E|].
  assert (Hopen : forall e, In e (userBooks (store w)) -> bookId e = b ->
                            isCurrentlyBorrowed e = true -> open_for b e = true).
  { intros e _ <- He. unfold open_for. now rewrite Z.eqb_refl, He. }
  assert (Hnone : find (open_for b) (userBooks (store w)) = None ->
                  forall e, In e (userBooks (store w)) -> bookId e = b ->
                            isCurrentlyBorrowed e = true -> False).
  { intros Ho e Hin Hb' Hop. pose proof (find_none _ _ Ho e Hin) as H.
    rewrite (Hopen e Hin Hb' Hop) in H. discriminate. }
  unfold Conflict.
  inversion Hout as [ Hnf | e _ _ Ho | e _ _ Ho Hc | _ _ Ho Hc ]; subst;
    cbn [message success status].
  - tauto.
  - apply find_some in Ho as [Hin Ho']. pose proof Ho' as Ho.
    unfold open_for in Ho'. rewrite eqb_true_r in Ho'.
    apply andb_true_iff in Ho' as [Hbk Hop]. apply Z.eqb_eq in Hbk.
    assert (Hmsg : (userId e = u -> conflict_message u e
                                    = "Book is already borrowed by this user")
                   /\ (userId e <> u -> conflict_message u e
                                        = "Book is already borrowed by someone else")).
    { unfold conflict_message. destruct (Z.eqb_spec (userId e) u); split; congruence. }
    split; [|split].
    + split; [intros _; exists e; tauto | auto].
    + intros _. exists e. tauto.
    + intros HA e' Hin' Hb' Hop'.
      assert (e' = e) as ->; [|split; reflexivity].
      apply (filter_at_most_one (open_for b) (userBooks (store w))); auto.
      rewrite <- open_links_filter. apply HA.
  - split; [|split].
    + split; [intros [H _]; discriminate H|].
      intros (e' & Hin & Hb' & Hop'). destruct (Hnone Ho e' Hin Hb' Hop').
    + intros [H _]; discriminate H.
    + intros _ e' Hin Hb' Hop'. destruct (Hnone Ho e' Hin Hb' Hop').
  - split; [|split].
    + split; [intros [H _]; discriminate H|].
      intros (e' & Hin & Hb' & Hop'). destruct (Hnone Ho e' Hin Hb' Hop').
    + intros [H _]; discriminate H.
    + intros _ e' Hin Hb' Hop'. destruct (Hnone Ho e' Hin Hb' Hop').
Qed.

Lemma C2_borrow_conflict_iff_witness :
  exists_user 2 alice_holds_dune /\ exists_book 1 alice_holds_dune /\
  exists r w', borrowBook 2 1 (fresh alice_holds_dune) = (Fulfilled r, w')
               /\ message r = "Book is already borrowed by someone else".
Proof.
  assert (Hu : exists_user 2 alice_holds_dune) by (vm_compute; discriminate).
  assert (Hb : exists_book 1 alice_holds_dune) by (vm_compute; discriminate).
  split; [exact Hu|split; [exact Hb|]].
  destruct (C2_borrow_conflict_iff 2 1 (fresh alice_holds_dune) Hu Hb)
    as (r & w' & E & _ & _ & Hmsg).
  exists r, w'. split; [exact E|].
  refine (proj2 (Hmsg _ (mkUserBooks 1 1 0 true) _ eq_refl eq_refl)).
  - intros b. destruct (Z.eq_dec b 1) as [->|Hne]; vm_compute; [lia|].
    destruct b as [|[p|p|]|p]; try (cbn; lia); congruence.
  - vm_compute. auto.
Defined.

(** C3. When the user and the book exist and no Loan-link row of the book
    is open, borrowBook succeeds.  If a closed row of the pair exists, the
    rows of the pair are set to isCurrentlyBorrowed = true and
    userScore = 0 and no row is added; otherwise one open row of the pair
    with score 0 is appended.  Either way the call leaves as many rows of
    the pair as there were, or one if there was none: no duplicate. *)
Theorem C3_borrow_free_book (u b : Z) (w : World) :
  exists_user u (store w) -> exists_book b (store w) ->
  (forall e, In e (userBooks (store w)) -> bookId e = b ->
             isCurrentlyBorrowed e = false) ->
  exists w',
    borrowBook u b w
    = (Fulfilled (mkResult true "Book borrowed successfully" 200), w') /\
    ((exists e, In e (userBooks (store w)) /\ userId e = u /\ bookId e = b
                /\ isCurrentlyBorrowed e = false) ->
     userBooks (store w')
     = map (fun r => if has_key u b r
                     then mkUserBooks (userId r) (bookId r) 0 true else r)
           (userBooks (store w))) /\
    ((forall e, In e (userBooks (store w)) ->
                ~ (userId e = u /\ bookId e = b /\ isCurrentlyBorrowed e = false)) ->
     userBooks (store w') = userBooks (store w) ++ [mkUserBooks u b 0 true]) /\
    List.length (filter (has_key u b) (userBooks (store w')))
    = Nat.max 1 (List.length (filter (has_key u b) (userBooks (store w)))).
Proof.
  intros Hu Hb Hfree.
  destruct (borrowBook_outcome u b w) as (r & s' & j & E & Hout).
  exists (mkWorld s' (journal w ++ j)).
  assert (Hclosed : forall e, (In e (userBooks (store w)) /\ userId e = u
                               /\ bookId e = b /\ isCurrentlyBorrowed e = false)
                              <-> (In e (userBooks (store w))
                                   /\ closed_pair u b e = true)).
  { intros e. unfold closed_pair.
    rewrite !andb_true_iff, !Z.eqb_eq, eqb_false_r, negb_true_iff. tauto. }
  inversion Hout as [ Hnf | e _ _ Ho | e _ _ Ho Hc | _ _ Ho Hc ]; subst.
  - tauto.
  - exfalso. apply find_some in Ho as [Hin Ho]. unfold open_for in Ho.
    rewrite eqb_true_r in Ho. apply andb_true_iff in Ho as [Hbk Hop].
    apply Z.eqb_eq in Hbk. rewrite (Hfree e Hin Hbk) in Hop. discriminate.
  - cbn [store userBooks]. split; [exact E|]. split; [|split].
    + intros _. apply map_ext. intros x. now rewrite pair_of_has_key.
    + intros Hno. exfalso. apply find_some in Hc.
      apply (Hno e (proj1 Hc)). apply Hclosed in Hc. tauto.
    + rewrite filter_map_length_eq.
      * apply find_some, Hclosed in Hc as (Hin & Hue & Hbe & _).
        assert (In e (filter (has_key u b) (userBooks (store w)))).
        { apply filter_In. split; [exact Hin|]. unfold has_key.
          now rewrite Hue, Hbe, !Z.eqb_refl. }
        destruct (filter (has_key u b) (userBooks (store w))); [contradiction|].
        cbn [List.length]. lia.
      * intros x. destruct (pair_of u b x); reflexivity.
  - cbn [store userBooks]. split; [exact E|]. split; [|split].
    + intros (e & He). apply Hclosed in He as [Hin He].
      pose proof (find_none _ _ Hc e Hin). congruence.
    + reflexivity.
    + rewrite filter_app, length_app.
      rewrite (existsb_false_filter _ _ (no_open_no_closed_no_row u b _ Ho Hc)).
      unfold has_key. cbn. now rewrite !Z.eqb_refl.
Qed.

Lemma C3_borrow_free_book_witness :
  exists_user 1 alice_returned_dune /\ exists_book 1 alice_returned_dune /\
  exists w',
    borrowBook 1 1 (fresh alice_returned_dune)
    = (Fulfilled (mkResult true "Book borrowed successfully" 200), w')
    /\ userBooks (store w') = [mkUserBooks 1 1 0 true].
Proof.
  assert (Hu : exists_user 1 alice_returned_dune) by (vm_compute; discriminate).
  assert (Hb : exists_book 1 alice_returned_dune) by (vm_compute; discriminate).
  split; [exact Hu|split; [exact Hb|]].
  destruct (C3_borrow_free_book 1 1 (fresh alice_returned_dune) Hu Hb)
    as (w' & E & Hre & _).
  - intros e [<-|[]] _. reflexivity.
  - exists w'. split; [exact E|]. rewrite Hre; [reflexivity|].
    exists (mkUserBooks 1 1 4 false). vm_compute. auto.
Defined.

(** C4, amended. Every borrowBook call leaves the User and Book records
    as they were.  A successful call performs exactly one write to the
    Loan-link store: either one INSERT of a row, or one UPDATE, which
    changes at least one row and exactly one when the primary key holds.
    A failing call performs no write. *)
Theorem C4_borrow_writes (u b : Z) (w : World) :
  exists r w' j,
    borrowBook u b w = (Fulfilled r, w') /\
    journal w' = journal w ++ j /\
    users (store w') = users (store w) /\
    books (store w') = books (store w) /\
    (success r = true ->
     writes_to TUserBooks j = 1%nat /\
     ((j = [Inserted TUserBooks] /\
       exists row, userBooks (store w') = userBooks (store w) ++ [row]) \/
      (exists n, j = [Updated TUserBooks n] /\ (1 <= n)%nat /\
                 (primary_key (store w) -> n = 1%nat) /\
                 List.length (userBooks (store w'))
                 = List.length (userBooks (store w))))) /\
    (success r = false -> j = [] /\ store w' = store w).
Proof.
  destruct (borrowBook_outcome u b w) as (r & s' & j & E & Hout).
  exists r, (mkWorld s' (journal w ++ j)), j.
  split; [exact E|]. split; [reflexivity|].
  inversion Hout as [ Hnf | e _ _ Ho | e _ _ Ho Hc | _ _ Ho Hc ]; subst;
    cbn [store users books userBooks success];
    (split; [reflexivity|]); (split; [reflexivity|]);
    (split; [|try discriminate; auto]); try discriminate.
  - intros _. split; [reflexivity|]. right. eexists. split; [reflexivity|].
    assert (Hin : In e (filter (pair_of u b) (userBooks (store w)))).
    { apply find_some in Hc as [Hin Hc]. apply filter_In. split; [exact Hin|].
      unfold closed_pair in Hc. apply andb_true_iff in Hc as [Hc _]. exact Hc. }
    split; [|split].
    + destruct (filter (pair_of u b) (userBooks (store w))); [contradiction|].
      cbn [List.length]. lia.
    + intros pk. specialize (pk u b).
      rewrite (filter_ext _ _ (pair_of_has_key u b)) in Hin |- *.
      destruct (filter (has_key u b) (userBooks (store w))); [contradiction|].
      cbn [List.length] in *. lia.
    + apply length_map.
  - intros _. split; [reflexivity|]. left. split; [reflexivity|]. eauto.
Qed.

(** C4 as stated fails: a call for a user that does not exist performs no
    write at all. *)
Lemma C4_counterexample :
  borrowBook 1 1 (fresh emptyStore)
  = (Fulfilled (mkResult false "User or Book not found" 404), fresh emptyStore)
  /\ writes_to TUserBooks (journal (snd (borrowBook 1 1 (fresh emptyStore)))) <> 1%nat.
Proof.
  split; [reflexivity|]. vm_compute. discriminate.
Qed.

(** C5. When the user and the book exist, returnBook fails with
    InvalidState exactly when no Loan-link row of the exact pair is open,
    whoever else may hold the book, and then changes nothing.  Otherwise it
    succeeds, whatever integer the score is, and the rows with the pair's
    key get isCurrentlyBorrowed = false and userScore = score while every
    other row is kept; with the primary key in force that is the one open
    row of the pair. *)
Theorem C5_return_book (u b score : Z) (w : World) :
  exists_user u (store w) -> exists_book b (store w) ->
  exists r w',
    returnBook u b score w = (Fulfilled r, w') /\
    (InvalidState r <->
     ~ exists e, In e (userBooks (store w)) /\ userId e = u /\ bookId e = b
                 /\ isCurrentlyBorrowed e = true) /\
    (InvalidState r -> w' = w) /\
    (~ InvalidState r ->
     success r = true /\
     users (store w') = users (store w) /\
     books (store w') = books (store w) /\
     userBooks (store w')
     = map (fun e => if has_key u b e
                     then mkUserBooks (userId e) (bookId e) score false else e)
           (userBooks (store w)) /\
     (primary_key (store w) ->
      exists pre e post,
        userBooks (store w) = pre ++ e :: post /\
        userId e = u /\ bookId e = b /\ isCurrentlyBorrowed e = true /\
        userBooks (store w') = pre ++ mkUserBooks u b score false :: post)).
Proof.
  intros Hu Hb. rewrite returnBook_eq. unfold exists_user, exists_book in *.
  destruct (find (fun x => user_id x =? u) (users (store w))) as [usr|] eqn:Eu;
    [|congruence].
  destruct (find (fun x => book_id x =? b) (books (store w))) as [bk|] eqn:Eb;
    [|congruence].
  assert (Hopen : forall e, (In e (userBooks (store w)) /\ userId e = u
                             /\ bookId e = b /\ isCurrentlyBorrowed e = true)
                            <-> (In e (userBooks (store w)) /\ open_pair u b e = true)).
  { intros e. unfold open_pair.
    rewrite !andb_true_iff, !Z.eqb_eq, eqb_true_r. tauto. }
  unfold InvalidState.
  destruct (find (open_pair u b) (userBooks (store w))) as [e|] eqn:Eo.
  - eexists _, _. split; [reflexivity|]. cbn [success status store].
    apply find_some in Eo. pose proof (proj2 (Hopen e) Eo) as He.
    split; [|split; [|intros _]].
    + split; [intros [H _]; discriminate H|]. intros Hno. destruct Hno. eauto.
    + intros [H _]; discriminate H.
    + unfold returned. rewrite Eu, Eb.
      destruct (find (open_pair u b) (userBooks (store w))) eqn:Eo';
        [|pose proof (find_none _ _ Eo' e (proj1 Eo)); destruct Eo; congruence].
      cbn [users books userBooks]. repeat (split; [reflexivity|]).
      intros pk.
      destruct (map_update_unique (has_key u b) (close score)
                  (userBooks (store w)) e (pk u b)) as (pre & post & El & Em).
      * tauto.
      * unfold has_key. destruct He as (_ & -> & -> & _). now rewrite !Z.eqb_refl.
      * exists pre, e, post. split; [exact El|].
        destruct He as (_ & Hue & Hbe & Hop). repeat (split; [assumption|]).
        unfold close in Em. rewrite Hue, Hbe in Em. exact Em.
  - eexists _, _. split; [reflexivity|]. cbn [success status].
    split; [|split; [reflexivity|]].
    + split; [|auto]. intros _ (e & He). apply Hopen in He as [Hin He].
      pose proof (find_none _ _ Eo e Hin). congruence.
    + intros H. destruct H. auto.
Qed.

Lemma C5_return_book_witness :
  exists_user 2 alice_holds_dune /\ exists_book 1 alice_holds_dune /\
  exists r, returnBook 2 1 5 (fresh alice_holds_dune)
            = (Fulfilled r, fresh alice_holds_dune) /\ InvalidState r.
Proof.
  assert (Hu : exists_user 2 alice_holds_dune) by (vm_compute; discriminate).
  assert (Hb : exists_book 1 alice_holds_dune) by (vm_compute; discriminate).
  split; [exact Hu|split; [exact Hb|]].
  destruct (C5_return_book 2 1 5 (fresh alice_holds_dune) Hu Hb)
    as (r & w' & E & Hiff & Hsame & _).
  assert (Hr : InvalidState r).
  { apply Hiff. intros (e & [<-|[]] & Hue & _). discriminate Hue. }
  exists r. split; [|exact Hr]. rewrite (Hsame Hr) in E. exact E.
Defined.

(** C6, amended. In every state the calls can reach, for every existing
    book whose scores and running sums, row after row, stay below 2^53 in
    magnitude, getBookWithScore reports the number -1 exactly when the
    userScore of all Loan-link rows of the book, open or closed, sum to 0
    (no row, or scores that cancel); otherwise it reports a string,
    toFixed(2) of the binary64 quotient of that sum by the number of those
    rows.  When moreover the sum is below 2^44 in magnitude, the string
    reads as the sum divided by the count, rounded to a nearest number of
    hundredths.  Open rows carry the score 0, so the sum is the sum over
    the closed rows. *)
Theorem C6_average_score (b : Z) (w : World) (bk : Book) :
  reachable (store w) ->
  find (fun x => book_id x =? b) (books (store w)) = Some bk ->
  safe_scores b (store w) ->
  exists sc,
    getBookWithScore b w
    = (Fulfilled (Some (mkBookWithScore b (book_name bk) sc)), w) /\
    (sc = JsNumber (-1) <-> book_total b (store w) = 0) /\
    (book_total b (store w) <> 0 ->
     sc = JsString
            (toFixed2 (Number_div (Number_of_Z (book_total b (store w)))
                                  (Number_of_Z (book_count b (store w)))))) /\
    (book_total b (store w) <> 0 ->
     Z.abs (book_total b (store w)) < 2 ^ 44 ->
     book_count b (store w) < 2 ^ 53 ->
     exists n,
       sc = JsString
              (Digits ((if (book_total b (store w) <? 0)%Z then "-" else EmptyString)
                       ++ point2 n)%string) /\
       2 * Z.abs (n * book_count b (store w) - 100 * Z.abs (book_total b (store w)))
       <= book_count b (store w)) /\
    book_total b (store w)
    = total_score (filter (fun r => negb (isCurrentlyBorrowed r))
                          (links_of_book b (userBooks (store w)))).
Proof.
  intros Hreach Hfind Hsafe. apply reachable_consistent in Hreach as [_ fk _ un].
  pose proof (getBookWithScore_eq b w bk Hfind) as E. cbv zeta in E.
  rewrite (includeUsers_rows _ bk fk), (find_book_id _ _ _ Hfind) in E.
  destruct (running_total_exact _ Hsafe) as [Hrun Hbound].
  rewrite Hrun, (Number_is_zero_of_Z _ Hbound) in E.
  fold (book_total b (store w)) in E, Hbound. fold (book_count b (store w)) in E.
  assert (Hclosed : book_total b (store w)
                    = total_score (filter (fun r => negb (isCurrentlyBorrowed r))
                                          (links_of_book b (userBooks (store w))))).
  { apply total_score_closed. intros r Hr. apply un.
    unfold links_of_book in Hr. now apply filter_In in Hr. }
  eexists. split; [exact E|].
  destruct (Z.eqb_spec (book_total b (store w)) 0) as [H0|Hn0].
  - split; [tauto|]. split; [tauto|]. split; [tauto|exact Hclosed].
  - split; [split; [discriminate|contradiction]|]. split; [reflexivity|].
    split; [|exact Hclosed]. intros _ Hsmall Hcount.
    assert (Hpos : 0 < book_count b (store w)).
    { unfold book_count, book_total in *.
      destruct (links_of_book b (userBooks (store w))); [contradiction|].
      cbn [List.length]. lia. }
    destruct (quotient_hundredths (book_total b (store w)) (book_count b (store w)))
      as (m & e & Eq & Hlt & Hn); [lia|lia|].
    exists (hundredths (numerator m e) (denominator e)).
    split; [|exact Hn]. rewrite Eq. unfold toFixed2.
    destruct (Z.leb_spec (10 ^ 21 * denominator e) (numerator m e)); [lia|reflexivity].
Qed.

Lemma C6_average_score_witness :
  reachable bob_holds_rated_dune /\ safe_scores 1 bob_holds_rated_dune /\
  exists sc,
    getBookWithScore 1 (fresh bob_holds_rated_dune)
    = (Fulfilled (Some (mkBookWithScore 1 "Dune" sc)), fresh bob_holds_rated_dune)
    /\ sc = JsString (Digits "2.00").
Proof.
  assert (Hr : reachable bob_holds_rated_dune).
  { exists [CreateUser "Alice"; CreateUser "Bob"; CreateBook "Dune";
            BorrowBook 1 1; ReturnBook 1 1 4; BorrowBook 2 1]. reflexivity. }
  assert (Hs : safe_scores 1 bob_holds_rated_dune) by reflexivity.
  split; [exact Hr|]. split; [exact Hs|].
  destruct (C6_average_score 1 (fresh bob_holds_rated_dune)
              (mkBook 1 "Dune" (S754_zero false)) Hr eq_refl Hs)
    as (sc & E & _ & Hsc & _).
  exists sc. split; [exact E|]. apply Hsc. vm_compute. discriminate.
Defined.

(** C6 as stated fails in two ways.  After the scores 2^53, 1 and -2^53
    the sum is 1, yet the running binary64 sum is 0 and the report is -1.
    After the scores 2^53 - 1, 0 and 0 the sum divided by 3 is
    3002399751580330.33..., yet the report is 3002399751580330.50. *)
Lemma C6_counterexample :
  (book_total 1 (three_scores 9007199254740992 1 (-9007199254740992)) = 1 /\
   fst (getBookWithScore 1
          (fresh (three_scores 9007199254740992 1 (-9007199254740992))))
   = Fulfilled (Some (mkBookWithScore 1 "Dune" (JsNumber (-1))))) /\
  (book_total 1 (three_scores 9007199254740991 0 0) = 9007199254740991 /\
   book_count 1 (three_scores 9007199254740991 0 0) = 3 /\
   fst (getBookWithScore 1 (fresh (three_scores 9007199254740991 0 0)))
   = Fulfilled
       (Some (mkBookWithScore 1 "Dune"
                (JsString (Digits "3002399751580330.50"))))).
Proof.
  repeat split; vm_compute; reflexivity.
Qed.

(** C7, amended. For every existing book, GET /books/:id answers 200 with
    the object {id, name, score} whose score is the number -1 or a string,
    never another number: the number -1 when the running binary64 sum of
    the userScore of the book's joined Loan-link rows is zero, and
    otherwise the string toFixed(2) gives for that sum divided by the
    number of those rows.  The joined rows are all the rows of the book
    when every row's user exists; in a reachable state in which the
    running sums stay below 2^53 the sum is the exact one, so the string
    is toFixed(2) of the total of the scores divided by their number. *)
Theorem C7_book_score_shape (b : Z) (w : World) (bk : Book) :
  find (fun x => book_id x =? b) (books (store w)) = Some bk ->
  exists sc rows,
    getBook b w
    = (Fulfilled (mkResponse 200 (JBookWithScore (mkBookWithScore b (book_name bk) sc))),
       w) /\
    rows = map snd (includeUsers (store w) bk) /\
    (foreign_keys (store w) -> rows = links_of_book b (userBooks (store w))) /\
    (sc = JsNumber (-1) \/ exists t, sc = JsString t) /\
    (sc = JsNumber (-1) <-> Number_is_zero (running_total rows) = true) /\
    (Number_is_zero (running_total rows) = false ->
     sc = JsString
            (toFixed2 (Number_div (running_total rows)
                                  (Number_of_Z (Z.of_nat (List.length rows)))))) /\
    (reachable (store w) -> safe_scores b (store w) ->
     book_total b (store w) <> 0 ->
     sc = JsString
            (toFixed2 (Number_div (Number_of_Z (book_total b (store w)))
                                  (Number_of_Z (book_count b (store w)))))).
Proof.
  intros Hfind. unfold getBook, bind.
  rewrite (getBookWithScore_eq b w bk Hfind). cbv zeta.
  eexists _, _. split; [reflexivity|]. split; [reflexivity|].
  assert (Hrows : foreign_keys (store w) ->
                  map snd (includeUsers (store w) bk)
                  = links_of_book b (userBooks (store w))).
  { intros fk. now rewrite (includeUsers_rows _ bk fk), (find_book_id _ _ _ Hfind). }
  split; [exact Hrows|].
  assert (Hsafe : reachable (store w) -> safe_scores b (store w) ->
                  book_total b (store w) <> 0 ->
                  running_total (map snd (includeUsers (store w) bk))
                  = Number_of_Z (book_total b (store w))
                  /\ Number_is_zero (running_total (map snd (includeUsers (store w) bk)))
                     = false
                  /\ Z.of_nat (List.length (map snd (includeUsers (store w) bk)))
                     = book_count b (store w)).
  { intros Hreach Hs Hne. apply reachable_consistent in Hreach as [_ fk _ _].
    rewrite (Hrows fk). destruct (running_total_exact _ Hs) as [Hrun Hbound].
    rewrite Hrun, (Number_is_zero_of_Z _ Hbound).
    split; [reflexivity|]. split; [|reflexivity].
    now apply Z.eqb_neq. }
  destruct (Number_is_zero (running_total (map snd (includeUsers (store w) bk))))
    eqn:Ez.
  - split; [now left|]. split; [tauto|]. split; [discriminate|].
    intros Hreach Hs Hne. destruct (Hsafe Hreach Hs Hne) as (_ & H & _).
    discriminate H.
  - split; [right; eauto|]. split; [split; discriminate|].
    split; [reflexivity|].
    intros Hreach Hs Hne. destruct (Hsafe Hreach Hs Hne) as (Hrun & _ & Hcount).
    now rewrite Hrun, Hcount.
Qed.

Lemma C7_book_score_shape_witness :
  exists sc,
    getBook 1 (fresh bob_holds_rated_dune)
    = (Fulfilled (mkResponse 200 (JBookWithScore (mkBookWithScore 1 "Dune" sc))),
       fresh bob_holds_rated_dune)
    /\ sc = JsString (Digits "2.00").
Proof.
  destruct (C7_book_score_shape 1 (fresh bob_holds_rated_dune)
              (mkBook 1 "Dune" (S754_zero false)) eq_refl)
    as (sc & rows & E & -> & _ & _ & _ & Hsc & _).
  exists sc. split; [exact E|]. apply Hsc. reflexivity.
Defined.

(** C7 as stated fails: after Alice returned Dune with score 4 and Bob
    borrowed it, the score field is the string 2.00, not a number. *)
Lemma C7_counterexample :
  getBook 1 (fresh bob_holds_rated_dune)
  = (Fulfilled
       (mkResponse 200
          (JBookWithScore (mkBookWithScore 1 "Dune" (JsString (Digits "2.00"))))),
     fresh bob_holds_rated_dune)
  /\ is_number (JsString (Digits "2.00")) = false.
Proof.
  split; reflexivity.
Qed.

(** C8. getUserById resolves to null, which GET /users/:userId answers
    with 404, exactly when no user has the id.  Otherwise it returns the
    user with the joined Loan-link rows split in two: [present] holds, in
    order, the book name of every open row, [past] the book name and the
    stored userScore of every closed row. *)
Theorem C8_user_with_loans (u : Z) (w : World) :
  exists res,
    getUserById u w = (Fulfilled res, w) /\
    (res = None <-> ~ exists_user u (store w)) /\
    (res = None ->
     getUser u w = (Fulfilled (mkResponse 404 (JError "User not found")), w)) /\
    (forall usr,
        find (fun x => user_id x =? u) (users (store w)) = Some usr ->
        exists r,
          res = Some r /\ uwb_id r = u /\ uwb_name r = user_name usr /\
          present r
          = map (fun bl => mkPresentBook (book_name (fst bl)))
                (filter (fun bl => isCurrentlyBorrowed (snd bl))
                        (includeBooks (store w) usr)) /\
          past r
          = map (fun bl => mkPastBook (book_name (fst bl)) (userScore (snd bl)))
                (filter (fun bl => negb (isCurrentlyBorrowed (snd bl)))
                        (includeBooks (store w) usr)) /\
          (forall p,
              In p (present r) <->
              exists row bk,
                In row (userBooks (store w)) /\ userId row = u /\
                find (fun x => book_id x =? bookId row) (books (store w)) = Some bk /\
                isCurrentlyBorrowed row = true /\
                p = mkPresentBook (book_name bk)) /\
          (forall p,
              In p (past r) <->
              exists row bk,
                In row (userBooks (store w)) /\ userId row = u /\
                find (fun x => book_id x =? bookId row) (books (store w)) = Some bk /\
                isCurrentlyBorrowed row = false /\
                p = mkPastBook (book_name bk) (userScore row))).
Proof.
  unfold getUser, try_catch, bind at 1.
  cbv [getUserById bind findUserWithBooks exists_user].
  destruct (find (fun x => user_id x =? u) (users (store w))) as [usr|] eqn:E;
    cbn [option_map].
  - rewrite partition_books. cbn [app ret].
    eexists. split; [reflexivity|].
    split; [split; [discriminate|intros H; exfalso; apply H; discriminate]|].
    split; [discriminate|].
    intros usr' [= <-]. eexists. split; [reflexivity|].
    cbn [uwb_id uwb_name present past].
    pose proof (find_user_id _ _ _ E) as Hid.
    repeat (split; [reflexivity || assumption|]).
    split; intros p; rewrite in_map_iff; split.
    + intros ([bk row] & <- & Hin). apply filter_In in Hin as [Hin Hop].
      apply in_includeBooks in Hin as (Hrow & Hu & Hb).
      exists row, bk. rewrite <- Hid. auto.
    + intros (row & bk & Hrow & Hu & Hb & Hop & ->). exists (bk, row).
      split; [reflexivity|]. apply filter_In. split; [|exact Hop].
      apply in_includeBooks. rewrite Hid. auto.
    + intros ([bk row] & <- & Hin). apply filter_In in Hin as [Hin Hop].
      apply in_includeBooks in Hin as (Hrow & Hu & Hb).
      apply negb_true_iff in Hop.
      exists row, bk. rewrite <- Hid. auto.
    + intros (row & bk & Hrow & Hu & Hb & Hop & ->). exists (bk, row).
      split; [reflexivity|]. apply filter_In. split; [|now apply negb_true_iff].
      apply in_includeBooks. rewrite Hid. auto.
  - eexists. split; [reflexivity|].
    split; [split; [intros _ H; now apply H|reflexivity]|].
    split; [reflexivity|]. discriminate.
Qed.

(** C9, as the code has it. For a non-empty name both creating routes
    answer 201 and persist the record under the next id, but neither
    returns it: createUser resolves to undefined, and POST /books sends
    the promise it never awaited. *)
Theorem C9_create_returns_no_record (name : string) (w : World) :
  notEmpty name = true ->
  createUser name w
  = (Fulfilled None,
     mkWorld (mkStore (users (store w)
                       ++ [mkUser (next_id (map user_id (users (store w)))) name])
                      (books (store w)) (userBooks (store w)))
             (journal w ++ [Inserted TUsers])) /\
  fst (postUser name w) = Fulfilled (mkResponse 201 JUndefined) /\
  postBook name w
  = (Fulfilled (mkResponse 201 JPromise),
     mkWorld (mkStore (users (store w))
                      (books (store w)
                       ++ [mkBook (next_id (map book_id (books (store w)))) name
                                  (S754_zero false)])
                      (userBooks (store w)))
             (journal w ++ [Inserted TBooks])).
Proof.
  intros Hname. unfold postUser, postBook. rewrite Hname.
  repeat split; reflexivity.
Qed.

Lemma C9_create_returns_no_record_witness :
  notEmpty "Alice" = true /\
  createUser "Alice" (fresh emptyStore)
  = (Fulfilled None,
     mkWorld (mkStore [mkUser 1 "Alice"] [] []) [Inserted TUsers]).
Proof.
  split; [reflexivity|].
  exact (proj1 (C9_create_returns_no_record "Alice" (fresh emptyStore) eq_refl)).
Defined.

(** C10. A failing borrowBook call changes nothing.  The call fails with
    NotFound when the user or the book does not exist and with Conflict
    when both exist and some Loan-link row of the book is open; it never
    throws; and whenever it fails, the world after the call (the three
    tables and the journal of writes) is the world before it: no Loan-link
    row is created and none is modified. *)
Theorem C10_failed_borrow_changes_nothing (u b : Z) (w : World) :
  exists r w',
    borrowBook u b w = (Fulfilled r, w') /\
    (~ (exists_user u (store w) /\ exists_book b (store w)) -> NotFound r) /\
    (exists_user u (store w) -> exists_book b (store w) ->
     (exists e, In e (userBooks (store w)) /\ bookId e = b
                /\ isCurrentlyBorrowed e = true) ->
     Conflict r) /\
    (success r = false ->
     w' = w /\ userBooks (store w') = userBooks (store w)).
Proof.
  destruct (borrowBook_outcome u b w) as (r & s' & j & E & Hout).
  exists r, (mkWorld s' (journal w ++ j)). split; [exact E|].
  assert (Hnone : find (open_for b) (userBooks (store w)) = None ->
                  ~ exists e, In e (userBooks (store w)) /\ bookId e = b
                              /\ isCurrentlyBorrowed e = true).
  { intros Ho (e & Hin & Hb' & Hop). pose proof (find_none _ _ Ho e Hin) as H.
    unfold open_for in H. rewrite <- Hb', Z.eqb_refl, Hop in H. discriminate. }
  unfold NotFound, Conflict.
  inversion Hout as [ Hnf | e Hu Hb Ho | e Hu Hb Ho Hc | Hu Hb Ho Hc ]; subst;
    cbn [success status].
  - rewrite app_nil_r. destruct w; tauto.
  - rewrite app_nil_r. destruct w; tauto.
  - split; [tauto|]. split; [|discriminate].
    intros _ _ H. destruct (Hnone Ho H).
  - split; [tauto|]. split; [|discriminate].
    intros _ _ H. destruct (Hnone Ho H).
Qed.

(** * Further properties *)

(** ** Every served call is one step *)

Lemma serve_step (c : Call) (s : Store) :
  step s (store (snd (serve c (fresh s)))).
Proof.
  destruct c as [name|name|u b|u b [score|]]; cbn [serve].
  - unfold postUser. destruct (notEmpty name) eqn:E; [|apply step_none].
    cbn. now apply step_user.
  - unfold postBook. destruct (notEmpty name) eqn:E; [|apply step_none].
    cbn. now apply step_book.
  - unfold postBorrow, try_catch, bind.
    destruct (borrowBook_outcome u b (fresh s)) as (r & s' & j & E & Hout).
    rewrite E. cbn [ret]. destruct (success r); cbn; exact (step_borrow _ _ _ _ _ _ Hout).
  - unfold postReturn, try_catch, bind. rewrite returnBook_eq. cbn [fresh store].
    pose proof (step_return s u b score) as Hr.
    destruct (find (fun x => user_id x =? u) (users s)) eqn:Eu.
    2:{ cbn. apply step_none. }
    destruct (find (fun x => book_id x =? b) (books s)) eqn:Eb.
    2:{ cbn. apply step_none. }
    destruct (find (open_pair u b) (userBooks s)) eqn:Eo.
    2:{ cbn. apply step_none. }
    exact Hr.
  - unfold postReturn, try_catch, bind. rewrite returnBook_null_eq. cbn [fresh store].
    destruct (find (fun x => user_id x =? u) (users s)); [|apply step_none].
    destruct (find (fun x => book_id x =? b) (books s)); [|apply step_none].
    destruct (find (open_pair u b) (userBooks s)); apply step_none.
Qed.

Lemma after_ind (P : Store -> Prop) (s : Store) :
  P s -> (forall x y, P x -> step x y -> P y) ->
  forall calls, P (after calls s).
Proof.
  intros H0 Hstep calls. revert s H0.
  induction calls as [|c calls IH]; intros s H0; [exact H0|].
  apply IH. exact (Hstep _ _ H0 (serve_step c s)).
Qed.

(** ** Identifiers *)

Lemma fold_max_base (l : list Z) (a : Z) :
  0 <= a -> fold_right Z.max a l = Z.max (fold_right Z.max 0 l) a.
Proof.
  intros Ha. induction l as [|x l IH]; simpl; [lia|]. rewrite IH. lia.
Qed.

Lemma ids_upto_S (n : nat) :
  ids_upto (S n) = ids_upto n ++ [Z.of_nat (S n)].
Proof.
  unfold ids_upto. rewrite seq_S, map_app. reflexivity.
Qed.

Lemma next_id_upto (n : nat) : next_id (ids_upto n) = Z.of_nat (S n).
Proof.
  unfold next_id.
  assert (H : fold_right Z.max 0 (ids_upto n) = Z.of_nat n).
  { induction n as [|n IH]; [reflexivity|].
    rewrite ids_upto_S, fold_right_app. cbn [fold_right].
    rewrite fold_max_base, IH by lia. lia. }
  rewrite H. lia.
Qed.

Lemma in_ids_upto (n : nat) (z : Z) :
  In z (ids_upto n) <-> 1 <= z <= Z.of_nat n.
Proof.
  unfold ids_upto. rewrite in_map_iff. split.
  - intros (k & <- & Hk). apply in_seq in Hk. lia.
  - intros Hz. exists (Z.to_nat z). split; [lia|]. apply in_seq. lia.
Qed.

Lemma find_id_in {A} (f : A -> Z) (l : list A) (z : Z) :
  find (fun x => f x =? z) l <> None <-> In z (map f l).
Proof.
  induction l as [|x l IH]; simpl; [tauto|].
  destruct (Z.eqb_spec (f x) z); [|tauto].
  split; [auto|discriminate].
Qed.

Lemma step_sequential_ids (x y : Store) :
  sequential_ids x -> step x y -> sequential_ids y.
Proof.
  intros [Hu Hb] Hstep.
  destruct Hstep as [|name _|name _|u b r s' j Hout|u b score];
    unfold sequential_ids; cbn [users books].
  - auto.
  - rewrite map_app, length_app, Nat.add_comm, Hu. cbn [map List.length plus].
    now rewrite next_id_upto, ids_upto_S.
  - rewrite map_app, length_app, Nat.add_comm, Hb. cbn [map List.length plus].
    now rewrite next_id_upto, ids_upto_S.
  - destruct Hout; auto.
  - unfold returned.
    destruct (find (fun x0 => user_id x0 =? u) (users x)),
      (find (fun x0 => book_id x0 =? b) (books x)),
      (find (open_pair u b) (userBooks x)); auto.
Qed.

Lemma reachable_sequential_ids (s : Store) : reachable s -> sequential_ids s.
Proof.
  intros [calls ->]. apply after_ind; [split; reflexivity|].
  exact step_sequential_ids.
Qed.

Lemma NoDup_ids_upto (n : nat) : NoDup (ids_upto n).
Proof.
  unfold ids_upto. apply Finite.Injective_map_NoDup; [|apply seq_NoDup].
  intros x y. apply Nat2Z.inj.
Qed.

Lemma step_grows (x y : Store) :
  step x y ->
  exists us bs ks,
    users y = users x ++ us /\ books y = books x ++ bs /\
    keys (userBooks y) = keys (userBooks x) ++ ks.
Proof.
  assert (Hmap : forall (f : UserBooks -> UserBooks) (p : UserBooks -> bool) t,
             (forall r, userId (f r) = userId r /\ bookId (f r) = bookId r) ->
             keys (map (fun r => if p r then f r else r) t) = keys t).
  { intros f p t Hf. unfold keys. rewrite map_map. apply map_ext.
    intros r. destruct (p r); [|reflexivity]. now destruct (Hf r) as [-> ->]. }
  intros Hstep.
  destruct Hstep as [|name _|name _|u b r s' j Hout|u b score]; cbn [users books userBooks].
  - exists [], [], []. now rewrite !app_nil_r.
  - exists [mkUser (next_id (map user_id (users x))) name], [], [].
    rewrite !app_nil_r. auto.
  - exists [], [mkBook (next_id (map book_id (books x))) name (S754_zero false)], [].
    rewrite !app_nil_r. auto.
  - destruct Hout; cbn [users books userBooks].
    + exists [], [], []. now rewrite !app_nil_r.
    + exists [], [], []. now rewrite !app_nil_r.
    + exists [], [], []. rewrite !app_nil_r. repeat split.
      apply Hmap; auto.
    + exists [], [], [(u, b)]. rewrite !app_nil_r. repeat split.
      unfold keys. now rewrite map_app.
  - unfold returned.
    destruct (find (fun x0 => user_id x0 =? u) (users x)),
      (find (fun x0 => book_id x0 =? b) (books x)),
      (find (open_pair u b) (userBooks x));
      exists [], [], []; rewrite !app_nil_r; repeat split.
    apply Hmap; auto.
Qed.

Lemma primary_key_NoDup (s : Store) :
  primary_key s -> NoDup (keys (userBooks s)).
Proof.
  unfold primary_key. induction (userBooks s) as [|r t IH]; intros pk.
  - constructor.
  - cbn [keys map]. constructor.
    + intros Hin. apply in_map_iff in Hin as (r' & Hk & Hr').
      injection Hk as Hu Hb.
      specialize (pk (userId r) (bookId r)). cbn [filter] in pk.
      assert (has_key (userId r) (bookId r) r = true) as E
          by (unfold has_key; now rewrite !Z.eqb_refl).
      rewrite E in pk. cbn [List.length] in pk.
      assert (In r' (filter (has_key (userId r) (bookId r)) t)).
      { apply filter_In. split; [exact Hr'|]. unfold has_key.
        now rewrite Hu, Hb, !Z.eqb_refl. }
      destruct (filter (has_key (userId r) (bookId r)) t); [contradiction|].
      cbn [List.length] in pk. lia.
    + apply IH. intros u b. specialize (pk u b). cbn [filter] in pk.
      destruct (has_key u b r); cbn [List.length] in pk; lia.
Qed.

(** ** Invariants of the reachable states *)

(** Users and books are numbered 1, 2, 3, ... in the order of their
    creation: an id exists exactly when it lies between 1 and the number
    of records, and no two records share an id.  getAllUsers lists the
    rows of the users table, all of them and in that order, so with the
    ids 1, 2, 3, ...; getAllBooks lists one {id, name} pair per book, with
    the ids 1, 2, 3, ... and the books' names in that order.  Neither
    changes anything. *)
Theorem ids_are_sequential (s : Store) :
  reachable s ->
  map user_id (users s) = ids_upto (List.length (users s)) /\
  map book_id (books s) = ids_upto (List.length (books s)) /\
  (forall u, exists_user u s <-> 1 <= u <= Z.of_nat (List.length (users s))) /\
  (forall b, exists_book b s <-> 1 <= b <= Z.of_nat (List.length (books s))) /\
  NoDup (map user_id (users s)) /\ NoDup (map book_id (books s)) /\
  (exists l, getAllUsers (fresh s) = (Fulfilled l, fresh s)
             /\ l = users s
             /\ map user_id l = ids_upto (List.length (users s))) /\
  (exists l, getAllBooks (fresh s) = (Fulfilled l, fresh s)
             /\ map fst l = ids_upto (List.length (books s))
             /\ map snd l = map book_name (books s)).
Proof.
  intros Hr. destruct (reachable_sequential_ids s Hr) as [Hu Hb].
  split; [exact Hu|]. split; [exact Hb|].
  split; [|split; [|split; [|split; [|split]]]].
  - intros u. unfold exists_user. now rewrite find_id_in, Hu, in_ids_upto.
  - intros b. unfold exists_book. now rewrite find_id_in, Hb, in_ids_upto.
  - rewrite Hu. apply NoDup_ids_upto.
  - rewrite Hb. apply NoDup_ids_upto.
  - exists (users s). split; [reflexivity|]. split; [reflexivity|exact Hu].
  - exists (map (fun book => (book_id book, book_name book)) (books s)).
    split; [reflexivity|]. rewrite !map_map. cbn [fst snd].
    split; [exact Hb|reflexivity].
Qed.

Lemma ids_are_sequential_witness :
  reachable alice_holds_dune /\
  (exists_user 2 alice_holds_dune /\ ~ exists_user 3 alice_holds_dune) /\
  getAllUsers (fresh alice_holds_dune)
  = (Fulfilled [mkUser 1 "Alice"; mkUser 2 "Bob"], fresh alice_holds_dune) /\
  exists l, getAllBooks (fresh alice_holds_dune) = (Fulfilled l, fresh alice_holds_dune)
            /\ map fst l = [1] /\ map snd l = ["Dune"].
Proof.
  assert (Hr : reachable alice_holds_dune) by (eexists; reflexivity).
  split; [exact Hr|].
  destruct (ids_are_sequential alice_holds_dune Hr)
    as (_ & _ & Hu & _ & _ & _ & (l & El & Hl & _) & (l' & El' & Hf & Hs)).
  split; [split; [apply Hu; cbn; lia|intros H; apply Hu in H; cbn in H; lia]|].
  split; [rewrite El, Hl; reflexivity|].
  exists l'. split; [exact El'|]. split; [exact Hf|exact Hs].
Defined.

(** No call deletes or renumbers anything: after any calls, served from
    any store, the users and the books are the old ones followed by the
    new ones, and so are the primary keys of the Loan-link rows. *)
Theorem nothing_is_deleted (calls : list Call) (s : Store) :
  exists us bs ks,
    users (after calls s) = users s ++ us /\
    books (after calls s) = books s ++ bs /\
    keys (userBooks (after calls s)) = keys (userBooks s) ++ ks.
Proof.
  apply after_ind.
  - exists [], [], []. now rewrite !app_nil_r.
  - intros x y (us & bs & ks & Hu & Hb & Hk) Hstep.
    destruct (step_grows x y Hstep) as (us' & bs' & ks' & Hu' & Hb' & Hk').
    exists (us ++ us'), (bs ++ bs'), (ks ++ ks').
    rewrite Hu', Hb', Hk', Hu, Hb, Hk, !app_assoc. auto.
Qed.

(** The composite primary key holds in every reachable state: no two
    Loan-link rows carry the same (userId, bookId), so UserBooks.create is
    never refused. *)
Theorem loan_links_have_distinct_keys (s : Store) :
  reachable s -> NoDup (keys (userBooks s)).
Proof.
  intros Hr. apply primary_key_NoDup, (cons_pk _ (reachable_consistent s Hr)).
Qed.

Lemma loan_links_have_distinct_keys_witness :
  reachable alice_returned_dune /\ NoDup (keys (userBooks alice_returned_dune)).
Proof.
  assert (Hr : reachable alice_returned_dune).
  { exists [CreateUser "Alice"; CreateUser "Bob"; CreateBook "Dune";
            BorrowBook 1 1; ReturnBook 1 1 4]. reflexivity. }
  split; [exact Hr|]. exact (loan_links_have_distinct_keys _ Hr).
Defined.

(** Every Loan-link row of a reachable state references a user and a book
    that exist. *)
Theorem loan_links_reference_existing_records (s : Store) (r : UserBooks) :
  reachable s -> In r (userBooks s) ->
  exists_user (userId r) s /\ exists_book (bookId r) s.
Proof.
  intros Hr Hin. exact (cons_fk _ (reachable_consistent s Hr) r Hin).
Qed.

Lemma loan_links_reference_existing_records_witness :
  reachable alice_holds_dune /\ In (mkUserBooks 1 1 0 true) (userBooks alice_holds_dune)
  /\ exists_user 1 alice_holds_dune /\ exists_book 1 alice_holds_dune.
Proof.
  assert (Hr : reachable alice_holds_dune) by (eexists; reflexivity).
  assert (Hin : In (mkUserBooks 1 1 0 true) (userBooks alice_holds_dune))
    by (left; reflexivity).
  split; [exact Hr|]. split; [exact Hin|].
  exact (loan_links_reference_existing_records _ _ Hr Hin).
Defined.

(** In every reachable state an open Loan-link row carries the score 0:
    a score is only ever stored by a return, which closes the row. *)
Theorem open_links_are_unscored (s : Store) (r : UserBooks) :
  reachable s -> In r (userBooks s) -> isCurrentlyBorrowed r = true ->
  userScore r = 0.
Proof.
  intros Hr. exact (cons_unscored _ (reachable_consistent s Hr) r).
Qed.

Lemma open_links_are_unscored_witness :
  reachable alice_holds_dune /\ userScore (mkUserBooks 1 1 0 true) = 0.
Proof.
  assert (Hr : reachable alice_holds_dune) by (eexists; reflexivity).
  split; [exact Hr|].
  apply (open_links_are_unscored alice_holds_dune _ Hr); [left|]; reflexivity.
Defined.

(** ** Return: failures and frame *)

(** returnBook throws exactly when it is handed the score null for an
    existing user and an existing book with an open loan of the pair: the
    update is refused before any statement is issued, and nothing
    changes.  In every other case, so for every integer score, it
    resolves: it fails with NotFound exactly when the user or the book
    does not exist, and a failing return changes nothing.  A successful
    return is one UPDATE (of one row when the primary key holds): it
    inserts and deletes no row, keeps every row's key and leaves the users
    and the books as they were. *)
Theorem return_fails_cleanly_and_keeps_rows (u b : Z) (score : Score) (w : World) :
  exists o w' j,
    returnBook u b score w = (o, w') /\
    journal w' = journal w ++ j /\
    users (store w') = users (store w) /\
    books (store w') = books (store w) /\
    keys (userBooks (store w')) = keys (userBooks (store w)) /\
    ((exists e, o = Rejected e) <->
     score = NullScore /\ exists_user u (store w) /\ exists_book b (store w) /\
     find (open_pair u b) (userBooks (store w)) <> None) /\
    (forall e, o = Rejected e -> e = ValidationError /\ w' = w /\ j = []) /\
    (forall r, o = Fulfilled r ->
       (NotFound r <-> ~ (exists_user u (store w) /\ exists_book b (store w))) /\
       (success r = false -> w' = w /\ j = []) /\
       (success r = true ->
        exists n, j = [Updated TUserBooks n] /\ (1 <= n)%nat /\
                  (primary_key (store w) -> n = 1%nat))).
Proof.
  unfold NotFound, exists_user, exists_book.
  destruct score as [score|]; [rewrite returnBook_eq|rewrite returnBook_null_eq].
  all: destruct (find (fun x => user_id x =? u) (users (store w))) as [usr|] eqn:Eu;
    [destruct (find (fun x => book_id x =? b) (books (store w))) as [bk|] eqn:Eb;
     [destruct (find (open_pair u b) (userBooks (store w))) as [e|] eqn:Eo|]|].
  all: try (eexists (Fulfilled (mkResult false _ _)), w, [];
            rewrite app_nil_r; repeat (split; [reflexivity|]);
            split; [split; [intros [x Hx]; discriminate Hx
                           |intros (Hn & Hu & Hb & Ho); congruence]|];
            split; [intros x Hx; discriminate Hx|];
            intros r Hr; injection Hr as <-; cbn [success status];
            split; [|split; [auto|discriminate]];
            split; [try (intros [_ H]; discriminate H); intros _ [Hu Hb]; congruence
                   |intros H;
                    first [split; reflexivity|exfalso; apply H; split; discriminate]]).
  - eexists _, _, _. split; [reflexivity|]. cbn [journal store].
    split; [reflexivity|]. unfold returned. rewrite Eu, Eb, Eo.
    cbn [users books userBooks]. split; [reflexivity|]. split; [reflexivity|].
    split.
    { unfold keys. rewrite map_map. apply map_ext. intros r.
      destruct (has_key u b r); reflexivity. }
    split; [split; [intros [x Hx]; discriminate Hx|intros [Hn _]; discriminate Hn]|].
    split; [intros x Hx; discriminate Hx|].
    intros r Hr. injection Hr as <-. cbn [success status].
    split; [split; [intros [H _]; discriminate H|]|].
    { intros H. exfalso. apply H. split; discriminate. }
    split; [discriminate|]. intros _. eexists. split; [reflexivity|].
    assert (Hin : In e (filter (has_key u b) (userBooks (store w)))).
    { apply find_some in Eo as [Hin Ho]. apply filter_In. split; [exact Hin|].
      unfold open_pair in Ho. apply andb_true_iff in Ho as [Ho _]. exact Ho. }
    split.
    + destruct (filter (has_key u b) (userBooks (store w))); [contradiction|].
      cbn [List.length]. lia.
    + intros pk. specialize (pk u b).
      destruct (filter (has_key u b) (userBooks (store w))); [contradiction|].
      cbn [List.length] in *. lia.
  - exists (Rejected ValidationError), w, []. rewrite app_nil_r.
    repeat (split; [reflexivity|]).
    split; [split; [intros _; repeat split; discriminate|eauto]|].
    split; [intros x Hx; injection Hx as <-; auto|].
    intros r Hr. discriminate Hr.
Qed.

(** A return with the score null while Alice holds Dune throws and leaves
    the row open. *)
Example run_return_null :
  returnBook 1 1 NullScore (fresh alice_holds_dune)
  = (Rejected ValidationError, fresh alice_holds_dune).
Proof.
  reflexivity.
Qed.

(** ** How borrow and return compose *)

Lemma borrowBook_inv (u b : Z) (w : World) (r : Result) (w' : World) :
  borrowBook u b w = (Fulfilled r, w') ->
  exists j, w' = mkWorld (store w') (journal w ++ j)
            /\ borrow_outcome u b (store w) r (store w') j.
Proof.
  intros E. destruct (borrowBook_outcome u b w) as (r0 & s0 & j0 & E0 & Hout).
  rewrite E in E0. injection E0 as -> ->. exists j0. split; [reflexivity|exact Hout].
Qed.

Lemma find_app_none {A} (p : A -> bool) (l l' : list A) :
  find p l = None -> find p (l ++ l') = find p l'.
Proof.
  induction l as [|x l IH]; simpl; [reflexivity|].
  destruct (p x); [discriminate|exact IH].
Qed.

(** After a successful borrow of [b] by [u], the user and the book are
    still there, some row of [b] is open, and every open row of [b]
    belongs to [u]. *)
Lemma borrow_success_open (u b : Z) (s : Store) (r : Result) (s' : Store)
      (j : list Write) :
  borrow_outcome u b s r s' j -> success r = true ->
  exists_user u s /\ exists_book b s /\
  users s' = users s /\ books s' = books s /\
  find (open_for b) (userBooks s') <> None /\
  (forall e, In e (userBooks s') -> open_for b e = true -> userId e = u).
Proof.
  intros Hout Hs.
  destruct Hout as [Hnf|e Hu Hb Ho|e Hu Hb Ho Hc|Hu Hb Ho Hc];
    try discriminate Hs; cbn [users books userBooks];
    (split; [exact Hu|]); (split; [exact Hb|]);
    (split; [reflexivity|]); (split; [reflexivity|]); split.
  - apply find_some in Hc as [Hin Hc].
    intros Hnone.
    assert (Hin' : In (reopen e)
                      (map (fun r0 => if pair_of u b r0 then reopen r0 else r0)
                           (userBooks s))).
    { apply in_map_iff. exists e. split; [|exact Hin].
      unfold closed_pair in Hc. apply andb_true_iff in Hc as [Hc _].
      unfold pair_of. now rewrite Hc. }
    pose proof (find_none _ _ Hnone _ Hin') as H.
    unfold closed_pair in Hc. apply andb_true_iff in Hc as [Hc _].
    apply andb_true_iff in Hc as [Hc _].
    unfold open_for, reopen in H. cbn in H. rewrite Hc in H. discriminate.
  - intros e' Hin Hop. apply in_map_iff in Hin as (r0 & <- & Hr0).
    destruct (pair_of u b r0) eqn:Ep.
    + unfold pair_of in Ep. apply andb_true_iff in Ep as [_ Ep].
      apply Z.eqb_eq in Ep. exact Ep.
    + pose proof (find_none _ _ Ho _ Hr0). congruence.
  - rewrite (find_app_none _ _ _ Ho). cbn. unfold open_for. cbn.
    rewrite Z.eqb_refl. discriminate.
  - intros e' Hin Hop. apply in_app_iff in Hin as [Hin|[<-|[]]]; [|reflexivity].
    pose proof (find_none _ _ Ho _ Hin). congruence.
Qed.

(** Once a borrow of a book has succeeded, every further borrow of that
    book by an existing user fails with Conflict and changes nothing; the
    message says "this user" to the holder and "someone else" to anybody
    else. *)
Theorem borrow_then_borrow_conflicts (u u' b : Z) (w w' : World) (r : Result) :
  borrowBook u b w = (Fulfilled r, w') -> success r = true ->
  exists_user u' (store w) ->
  borrowBook u' b w'
  = (Fulfilled (mkResult false
                  (if u' =? u then "Book is already borrowed by this user"
                   else "Book is already borrowed by someone else") 400),
     w').
Proof.
  intros E Hs Hu'.
  destruct (borrowBook_inv u b w r w' E) as (j & _ & Hout).
  destruct (borrow_success_open u b _ r _ j Hout Hs)
    as (_ & Hb & Eus & Ebs & Hsome & Hall).
  destruct (borrowBook_outcome u' b w') as (r2 & s2 & j2 & E2 & Hout2).
  rewrite E2.
  destruct Hout2 as [Hnf|e _ _ Ho|e _ _ Ho Hc|_ _ Ho Hc]; try congruence.
  - exfalso. apply Hnf. unfold exists_user, exists_book in *.
    rewrite Eus, Ebs. auto.
  - rewrite app_nil_r. apply find_some in Ho as [Hin Ho].
    rewrite <- (Hall e Hin Ho). unfold conflict_message.
    rewrite (Z.eqb_sym u' (userId e)). destruct w'; reflexivity.
Qed.

Lemma borrow_then_borrow_conflicts_witness :
  exists_user 2 alice_returned_dune /\
  borrowBook 2 1 (snd (borrowBook 1 1 (fresh alice_returned_dune)))
  = (Fulfilled (mkResult false "Book is already borrowed by someone else" 400),
     snd (borrowBook 1 1 (fresh alice_returned_dune))).
Proof.
  assert (Hu : exists_user 2 alice_returned_dune) by (vm_compute; discriminate).
  split; [exact Hu|].
  exact (borrow_then_borrow_conflicts 1 2 1 (fresh alice_returned_dune) _ _
           eq_refl eq_refl Hu).
Defined.

(** After a successful borrow the borrower can return the book, with any
    score: the return succeeds and leaves the pair's row closed with that
    score.  Nobody else can return it: their return fails with
    InvalidState and changes nothing. *)
Theorem borrow_then_return (u b score : Z) (w w' : World) (r : Result) :
  borrowBook u b w = (Fulfilled r, w') -> success r = true ->
  (exists w'',
      returnBook u b score w'
      = (Fulfilled (mkResult true "Book returned successfully" 200), w'') /\
      In (mkUserBooks u b score false) (userBooks (store w'')) /\
      (forall e, In e (userBooks (store w'')) -> has_key u b e = true ->
                 e = mkUserBooks u b score false)) /\
  (forall u', u' <> u -> exists_user u' (store w) ->
              returnBook u' b score w'
              = (Fulfilled (mkResult false
                              "This book is not currently borrowed by the user" 400),
                 w')).
Proof.
  intros E Hs.
  destruct (borrowBook_inv u b w r w' E) as (j & _ & Hout).
  destruct (borrow_success_open u b _ r _ j Hout Hs)
    as (Hu & Hb & Eus & Ebs & Hsome & Hall).
  unfold exists_user, exists_book in *. split.
  - rewrite returnBook_eq, Eus, Ebs.
    destruct (find (fun x => user_id x =? u) (users (store w))) eqn:Eu; [|congruence].
    destruct (find (fun x => book_id x =? b) (books (store w))) eqn:Eb; [|congruence].
    destruct (find (open_for b) (userBooks (store w'))) as [e|] eqn:Eo; [|congruence].
    apply find_some in Eo as [Hin Ho]. pose proof (Hall e Hin Ho) as Hue.
    assert (Hop : open_pair u b e = true).
    { unfold open_for in Ho. unfold open_pair.
      apply andb_true_iff in Ho as [Hbk Hopen].
      now rewrite Hue, Z.eqb_refl, Hbk, Hopen. }
    destruct (find (open_pair u b) (userBooks (store w'))) as [e'|] eqn:Ep.
    2:{ pose proof (find_none _ _ Ep e Hin). congruence. }
    eexists. split; [reflexivity|]. cbn [store]. unfold returned.
    rewrite Eus, Ebs, Ep, Eu, Eb. cbn [userBooks].
    assert (Hk : has_key u b e = true).
    { unfold open_pair in Hop. apply andb_true_iff in Hop as [Hop _]. exact Hop. }
    assert (Hkeys : userId e = u /\ bookId e = b)
      by (unfold has_key in Hk; rewrite andb_true_iff, !Z.eqb_eq in Hk; exact Hk).
    split.
    + apply in_map_iff. exists e. rewrite Hk. unfold close.
      destruct Hkeys as [-> ->]. auto.
    + intros x Hx Hkx. apply in_map_iff in Hx as (x0 & <- & Hx0).
      destruct (has_key u b x0) eqn:Ek0; [|congruence].
      unfold has_key in Ek0. rewrite andb_true_iff, !Z.eqb_eq in Ek0.
      unfold close. destruct Ek0 as [-> ->]. reflexivity.
  - intros u' Hne Hu'. rewrite returnBook_eq, Eus, Ebs.
    destruct (find (fun x => user_id x =? u') (users (store w))); [|congruence].
    destruct (find (fun x => book_id x =? b) (books (store w))); [|congruence].
    destruct (find (open_pair u' b) (userBooks (store w'))) as [e|] eqn:Ep;
      [exfalso|reflexivity].
    apply find_some in Ep as [Hin Hp]. unfold open_pair in Hp.
    apply andb_true_iff in Hp as [Hp Hopen]. apply andb_true_iff in Hp as [Hue Hbe].
    apply Z.eqb_eq in Hue. apply Hne. rewrite <- Hue. apply Hall; [exact Hin|].
    unfold open_for. now rewrite Hbe, Hopen.
Qed.

Lemma borrow_then_return_witness :
  exists w'',
    returnBook 1 1 5 (snd (borrowBook 1 1 (fresh alice_returned_dune)))
    = (Fulfilled (mkResult true "Book returned successfully" 200), w'')
    /\ In (mkUserBooks 1 1 5 false) (userBooks (store w'')).
Proof.
  destruct (borrow_then_return 1 1 5 (fresh alice_returned_dune) _ _
              eq_refl eq_refl) as [(w'' & E & Hin & _) _].
  exists w''. split; assumption.
Defined.

Lemma returnBook_success (u b score : Z) (w w' : World) (r : Result) :
  returnBook u b score w = (Fulfilled r, w') -> success r = true ->
  exists e,
    find (open_pair u b) (userBooks (store w)) = Some e /\
    exists_user u (store w) /\ exists_book b (store w) /\
    store w' = mkStore (users (store w)) (books (store w))
                       (map (fun r0 => if has_key u b r0 then close score r0 else r0)
                            (userBooks (store w))).
Proof.
  rewrite returnBook_eq. unfold returned, exists_user, exists_book.
  destruct (find (fun x => user_id x =? u) (users (store w)));
    [|intros [= <- <-]; discriminate].
  destruct (find (fun x => book_id x =? b) (books (store w)));
    [|intros [= <- <-]; discriminate].
  destruct (find (open_pair u b) (userBooks (store w))) as [e|];
    [|intros [= <- <-]; discriminate].
  intros [= <- <-] _. exists e. repeat split; discriminate.
Qed.

Lemma open_pair_spec (u b : Z) (e : UserBooks) :
  open_pair u b e = true
  <-> userId e = u /\ bookId e = b /\ isCurrentlyBorrowed e = true.
Proof.
  unfold open_pair. rewrite !andb_true_iff, !Z.eqb_eq, eqb_true_r. tauto.
Qed.

(** After a successful return in a consistent store no row of the book is
    open. *)
Lemma return_frees_book (u b score : Z) (s : Store) (e : UserBooks) :
  consistent s -> find (open_pair u b) (userBooks s) = Some e ->
  find (open_for b)
       (map (fun r0 => if has_key u b r0 then close score r0 else r0) (userBooks s))
  = None.
Proof.
  intros Hs He. apply find_some in He as [Hin He]. apply open_pair_spec in He.
  destruct (find (open_for b) (map _ (userBooks s))) as [x|] eqn:Ex; [exfalso|reflexivity].
  apply find_some in Ex as [Hx Hox]. apply in_map_iff in Hx as (x0 & <- & Hx0).
  destruct (has_key u b x0) eqn:Ek.
  - unfold open_for, close in Hox. cbn in Hox. rewrite andb_false_r in Hox. discriminate.
  - assert (x0 = e) as ->.
    { apply (filter_at_most_one (open_for b) (userBooks s)); auto.
      - rewrite <- open_links_filter. apply (cons_A _ Hs).
      - unfold open_for. destruct He as (_ & Hbe & Hop).
        now rewrite Hbe, Hop, Z.eqb_refl. }
    unfold has_key in Ek. destruct He as (Hue & Hbe & _).
    rewrite Hue, Hbe, !Z.eqb_refl in Ek. discriminate.
Qed.

(** In a reachable state a successful return frees the book: a borrow by
    any existing user then succeeds, and a second return by the same user
    fails with InvalidState and changes nothing. *)
Theorem return_then_borrow (u b score : Z) (w w' : World) (r : Result) :
  reachable (store w) ->
  returnBook u b score w = (Fulfilled r, w') -> success r = true ->
  (forall u', exists_user u' (store w) ->
              exists w'',
                borrowBook u' b w'
                = (Fulfilled (mkResult true "Book borrowed successfully" 200), w'')) /\
  (forall score',
      returnBook u b score' w'
      = (Fulfilled (mkResult false
                      "This book is not currently borrowed by the user" 400),
         w')).
Proof.
  intros Hr E Hs. apply reachable_consistent in Hr.
  destruct (returnBook_success u b score w w' r E Hs) as (e & He & Hu & Hb & Es).
  pose proof (return_frees_book u b score _ e Hr He) as Hfree.
  split.
  - intros u' Hu'.
    destruct (borrowBook_outcome u' b w') as (r2 & s2 & j2 & E2 & Hout2).
    rewrite E2. rewrite Es in Hout2. cbn [userBooks] in Hout2.
    destruct Hout2 as [Hnf|x _ _ Ho|x _ _ Ho Hc|_ _ Ho Hc]; eauto.
    + exfalso. apply Hnf. split; assumption.
    + cbn [userBooks] in Ho. congruence.
  - intros [score'|]; [rewrite returnBook_eq|rewrite returnBook_null_eq];
      rewrite Es; cbn [users books userBooks];
      unfold exists_user, exists_book in Hu, Hb.
    all: destruct (find (fun x => user_id x =? u) (users (store w))); [|congruence].
    all: destruct (find (fun x => book_id x =? b) (books (store w))); [|congruence].
    all: destruct (find (open_pair u b) (map _ (userBooks (store w)))) as [x|] eqn:Ex;
      [exfalso|reflexivity].
    all: apply find_some in Ex as [Hx Hox]; apply open_pair_spec in Hox.
    all: pose proof (find_none _ _ Hfree x Hx) as Hno; unfold open_for in Hno.
    all: destruct Hox as (_ & Hbx & Hopx); now rewrite Hbx, Hopx, Z.eqb_refl in Hno.
Qed.

Lemma return_then_borrow_witness :
  reachable alice_holds_dune /\
  exists w'',
    borrowBook 2 1 (snd (returnBook 1 1 4 (fresh alice_holds_dune)))
    = (Fulfilled (mkResult true "Book borrowed successfully" 200), w'').
Proof.
  assert (Hr : reachable alice_holds_dune) by (eexists; reflexivity).
  split; [exact Hr|].
  destruct (return_then_borrow 1 1 4 (fresh alice_holds_dune) _ _ Hr eq_refl eq_refl)
    as [H _].
  apply (H 2). vm_compute. discriminate.
Defined.

(** In a reachable state, returning a book and borrowing it again at once
    puts the store back exactly as it was: the same row is reopened and
    the score just given is reset to 0, so it never reaches the average. *)
Theorem return_then_reborrow_restores (u b score : Z) (w w' : World) (r : Result) :
  reachable (store w) ->
  returnBook u b score w = (Fulfilled r, w') -> success r = true ->
  exists w'',
    borrowBook u b w'
    = (Fulfilled (mkResult true "Book borrowed successfully" 200), w'')
    /\ store w'' = store w.
Proof.
  intros Hr E Hs. apply reachable_consistent in Hr.
  destruct (returnBook_success u b score w w' r E Hs) as (e & He & Hu & Hb & Es).
  pose proof (return_frees_book u b score _ e Hr He) as Hfree.
  apply find_some in He as [Hin He]. apply open_pair_spec in He.
  destruct He as (Hue & Hbe & Hop).
  assert (Hk : has_key u b e = true)
    by (unfold has_key; now rewrite Hue, Hbe, !Z.eqb_refl).
  destruct (borrowBook_outcome u b w') as (r2 & s2 & j2 & E2 & Hout2).
  rewrite E2. rewrite Es in Hout2. cbn [userBooks users books] in Hout2.
  destruct Hout2 as [Hnf|x _ _ Ho|x _ _ Ho Hc|_ _ Ho Hc].
  - exfalso. apply Hnf. split; assumption.
  - cbn [userBooks] in Ho. congruence.
  - eexists. split; [reflexivity|]. cbn [store users books userBooks].
    rewrite map_map.
    rewrite (map_ext_in _ (fun r0 => r0)), map_id; [now destruct (store w)|].
    intros x0 Hx0. destruct (has_key u b x0) eqn:Ek.
    + assert (x0 = e) as ->
          by (apply (filter_at_most_one (has_key u b) (userBooks (store w)));
              auto; apply (cons_pk _ Hr)).
      rewrite pair_of_has_key. unfold close, has_key, reopen.
      cbn [userId bookId]. rewrite Hue, Hbe, !Z.eqb_refl. cbn [andb].
      pose proof (cons_unscored _ Hr e Hin Hop) as Hsc.
      destruct e as [eu eb es eo]. cbn in *. now subst.
    + rewrite pair_of_has_key, Ek. reflexivity.
  - exfalso. cbn [userBooks] in Hc.
    assert (Hin' : In (close score e)
                      (map (fun r0 => if has_key u b r0 then close score r0 else r0)
                           (userBooks (store w)))).
    { apply in_map_iff. exists e. now rewrite Hk. }
    pose proof (find_none _ _ Hc _ Hin') as Hno.
    unfold closed_pair, close in Hno. cbn in Hno.
    now rewrite Hue, Hbe, !Z.eqb_refl in Hno.
Qed.

Lemma return_then_reborrow_restores_witness :
  reachable alice_holds_dune /\
  exists w'',
    borrowBook 1 1 (snd (returnBook 1 1 4 (fresh alice_holds_dune)))
    = (Fulfilled (mkResult true "Book borrowed successfully" 200), w'')
    /\ store w'' = alice_holds_dune.
Proof.
  assert (Hr : reachable alice_holds_dune) by (eexists; reflexivity).
  split; [exact Hr|].
  exact (return_then_reborrow_restores 1 1 4 (fresh alice_holds_dune) _ _
           Hr eq_refl eq_refl).
Defined.

(** ** What borrow and return do to a book's total *)

Lemma total_score_app (l l' : list UserBooks) :
  total_score (l ++ l') = total_score l + total_score l'.
Proof.
  unfold total_score. induction l as [|x l IH]; cbn [app fold_right]; lia.
Qed.

Lemma total_links_update (u b b' : Z) (f : UserBooks -> UserBooks)
      (t : list UserBooks) :
  (forall r, bookId (f r) = bookId r) ->
  total_score (links_of_book b'
                 (map (fun r => if has_key u b r then f r else r) t))
  = total_score (links_of_book b' t)
    + (if b' =? b
       then total_score (map f (filter (has_key u b) t))
            - total_score (filter (has_key u b) t)
       else 0).
Proof.
  intros Hf. unfold links_of_book, total_score.
  induction t as [|r t IH]; cbn [map filter fold_right].
  - destruct (b' =? b); reflexivity.
  - destruct (has_key u b r) eqn:Ek.
    + rewrite Hf. unfold has_key in Ek. apply andb_true_iff in Ek as [_ Ek].
      apply Z.eqb_eq in Ek. rewrite Ek.
      destruct (Z.eqb_spec b b') as [->|Hne].
      * rewrite Z.eqb_refl in *. cbn [map filter fold_right]. lia.
      * destruct (Z.eqb_spec b' b); [congruence|]. lia.
    + destruct (bookId r =? b'); cbn [fold_right]; rewrite IH;
        destruct (b' =? b); lia.
Qed.

Lemma total_score_reopen (l : list UserBooks) : total_score (map reopen l) = 0.
Proof.
  unfold total_score. induction l as [|x l IH]; cbn [map fold_right reopen userScore]; lia.
Qed.

(** A successful borrow takes the score of the pair's earlier row, if
    there is one, out of the book's total (the row is reopened with score
    0), and adds a row to the book's count only when the pair is new; it
    leaves the totals and counts of the other books as they were. *)
Theorem borrow_resets_the_pair_score (u b : Z) (w w' : World) (r : Result) :
  borrowBook u b w = (Fulfilled r, w') -> success r = true ->
  book_total b (store w')
  = book_total b (store w)
    - total_score (filter (has_key u b) (userBooks (store w))) /\
  book_count b (store w')
  = book_count b (store w)
    + (if existsb (has_key u b) (userBooks (store w)) then 0 else 1) /\
  (forall b', b' <> b ->
              book_total b' (store w') = book_total b' (store w) /\
              book_count b' (store w') = book_count b' (store w)).
Proof.
  intros E Hs. destruct (borrowBook_inv u b w r w' E) as (j & _ & Hout).
  unfold book_total, book_count.
  destruct Hout as [Hnf|e Hu Hb Ho|e Hu Hb Ho Hc|Hu Hb Ho Hc];
    try discriminate Hs.
  - replace (userBooks _) with
      (map (fun r0 => if has_key u b r0 then reopen r0 else r0) (userBooks (store w)))
      by (cbn [userBooks]; apply map_ext; intros; now rewrite pair_of_has_key).
    assert (Hex : existsb (has_key u b) (userBooks (store w)) = true).
    { apply existsb_exists. exists e. apply find_some in Hc as [Hin Hc].
      split; [exact Hin|]. rewrite <- pair_of_has_key.
      unfold closed_pair in Hc. now apply andb_true_iff in Hc as [Hc _]. }
    rewrite Hex.
    assert (Hlen : forall b', List.length (links_of_book b' (map (fun r0 => if has_key u b r0 then reopen r0 else r0) (userBooks (store w))))
                         = List.length (links_of_book b' (userBooks (store w)))).
    { intros b'. unfold links_of_book. apply filter_map_length_eq.
      intros x. destruct (has_key u b x); reflexivity. }
    split; [|split].
    + rewrite total_links_update by reflexivity.
      rewrite Z.eqb_refl, total_score_reopen. lia.
    + rewrite Hlen. lia.
    + intros b' Hne. rewrite total_links_update by reflexivity.
      destruct (Z.eqb_spec b' b); [congruence|]. rewrite Hlen. lia.
  - cbn [userBooks].
    pose proof (no_open_no_closed_no_row u b _ Ho Hc) as Hnone.
    rewrite Hnone, (existsb_false_filter _ _ Hnone).
    unfold links_of_book. split; [|split].
    + rewrite filter_app, total_score_app. cbn. rewrite Z.eqb_refl. cbn. lia.
    + rewrite filter_app, length_app. cbn. rewrite Z.eqb_refl. cbn. lia.
    + intros b' Hne. rewrite filter_app, total_score_app, length_app. cbn.
      destruct (Z.eqb_spec b b'); [congruence|]. cbn.
      rewrite Nat.add_0_r. lia.
Qed.

Lemma borrow_resets_the_pair_score_witness :
  book_total 1 (store (snd (borrowBook 1 1 (fresh alice_returned_dune)))) = 4 - 4.
Proof.
  exact (proj1 (borrow_resets_the_pair_score 1 1 (fresh alice_returned_dune) _ _
                  eq_refl eq_refl)).
Defined.

(** In a reachable state a successful return adds its score to the book's
    total and changes neither the number of rows of any book nor the total
    of any other book. *)
Theorem return_adds_the_score (u b score : Z) (w w' : World) (r : Result) :
  reachable (store w) ->
  returnBook u b score w = (Fulfilled r, w') -> success r = true ->
  book_total b (store w') = book_total b (store w) + score /\
  (forall b', book_count b' (store w') = book_count b' (store w)) /\
  (forall b', b' <> b -> book_total b' (store w') = book_total b' (store w)).
Proof.
  intros Hr E Hs. apply reachable_consistent in Hr.
  destruct (returnBook_success u b score w w' r E Hs) as (e & He & _ & _ & Es).
  apply find_some in He as [Hin He]. apply open_pair_spec in He.
  destruct He as (Hue & Hbe & Hop).
  assert (Hk : has_key u b e = true)
    by (unfold has_key; now rewrite Hue, Hbe, !Z.eqb_refl).
  assert (Hone : filter (has_key u b) (userBooks (store w)) = [e]).
  { pose proof (cons_pk _ Hr u b) as pk.
    assert (Hf : In e (filter (has_key u b) (userBooks (store w))))
      by (apply filter_In; auto).
    destruct (filter (has_key u b) (userBooks (store w))) as [|x [|y l]];
      cbn [List.length] in pk; [contradiction| |lia].
    destruct Hf as [->|[]]. reflexivity. }
  unfold book_total, book_count. rewrite Es. cbn [userBooks].
  split; [|split].
  - rewrite total_links_update by reflexivity.
    rewrite Z.eqb_refl, Hone. cbn.
    rewrite (cons_unscored _ Hr e Hin Hop). lia.
  - intros b'. f_equal. unfold links_of_book. apply filter_map_length_eq.
    intros x. destruct (has_key u b x); reflexivity.
  - intros b' Hne. rewrite total_links_update by reflexivity.
    destruct (Z.eqb_spec b' b); [congruence|]. lia.
Qed.

Lemma return_adds_the_score_witness :
  reachable alice_holds_dune /\
  book_total 1 (store (snd (returnBook 1 1 4 (fresh alice_holds_dune)))) = 0 + 4.
Proof.
  assert (Hr : reachable alice_holds_dune) by (eexists; reflexivity).
  split; [exact Hr|].
  exact (proj1 (return_adds_the_score 1 1 4 (fresh alice_holds_dune) _ _
                  Hr eq_refl eq_refl)).
Defined.

(** ** Create, then look up *)

Lemma includeBooks_nil (s : Store) (usr : User) :
  (forall r, In r (userBooks s) -> userId r <> user_id usr) ->
  includeBooks s usr = [].
Proof.
  intros H. unfold includeBooks.
  induction (userBooks s) as [|r t IH]; [reflexivity|]. cbn [flat_map].
  rewrite IH by (intros; apply H; now right).
  destruct (Z.eqb_spec (userId r) (user_id usr)) as [E|_]; [|reflexivity].
  destruct (H r (or_introl eq_refl) E).
Qed.

Lemma find_fresh_id {A} (f : A -> Z) (l : list A) (x : A) :
  ~ In (f x) (map f l) ->
  find (fun y => f y =? f x) (l ++ [x]) = Some x.
Proof.
  intros H. rewrite find_app_none.
  - cbn. now rewrite Z.eqb_refl.
  - destruct (find (fun y => f y =? f x) l) eqn:E; [|reflexivity].
    exfalso. apply H, find_id_in. congruence.
Qed.

(** In a reachable state POST /users with a non-empty name answers 201
    only after the INSERT: the user has the id one above the number of
    users, is the last row of the table, and getUserById then finds it
    under that id with no past and no present book.  (The answer itself
    carries no record.) *)
Theorem created_records_are_found (name : string) (s : Store) :
  reachable s -> notEmpty name = true ->
  exists w',
    postUser name (fresh s) = (Fulfilled (mkResponse 201 JUndefined), w') /\
    users (store w')
    = users s ++ [mkUser (Z.of_nat (List.length (users s)) + 1) name] /\
    getUserById (Z.of_nat (List.length (users s)) + 1) w'
    = (Fulfilled
         (Some (mkUserWithBooks (Z.of_nat (List.length (users s)) + 1) name [] [])),
       w').
Proof.
  intros Hr Hname.
  destruct (reachable_sequential_ids s Hr) as [Hu _].
  pose proof (cons_fk _ (reachable_consistent s Hr)) as fk.
  assert (Hnu : next_id (map user_id (users s))
                = Z.of_nat (List.length (users s)) + 1)
    by (rewrite Hu, next_id_upto; lia).
  unfold postUser. rewrite Hname. cbn [negb].
  eexists. split; [reflexivity|]. cbn [store users fresh].
  rewrite Hnu. split; [reflexivity|].
  set (usr := mkUser (Z.of_nat (List.length (users s)) + 1) name).
  assert (Hfresh : ~ In (user_id usr) (map user_id (users s)))
    by (rewrite Hu, in_ids_upto; cbn; lia).
  cbv [getUserById bind findUserWithBooks]. cbn [store users].
  change (Z.of_nat (List.length (users s)) + 1) with (user_id usr).
  rewrite (find_fresh_id user_id _ usr Hfresh). cbn [option_map].
  rewrite includeBooks_nil; [reflexivity|].
  cbn [userBooks]. intros r0 Hr0 E. apply Hfresh, find_id_in.
  rewrite <- E. apply (fk r0 Hr0).
Qed.

Lemma created_records_are_found_witness :
  reachable alice_holds_dune /\ notEmpty "Carol" = true /\
  exists w',
    postUser "Carol" (fresh alice_holds_dune)
    = (Fulfilled (mkResponse 201 JUndefined), w') /\
    users (store w') = [mkUser 1 "Alice"; mkUser 2 "Bob"; mkUser 3 "Carol"] /\
    getUserById 3 w' = (Fulfilled (Some (mkUserWithBooks 3 "Carol" [] [])), w').
Proof.
  assert (Hr : reachable alice_holds_dune) by (eexists; reflexivity).
  split; [exact Hr|]. split; [reflexivity|].
  destruct (created_records_are_found "Carol" alice_holds_dune Hr eq_refl)
    as (w' & E & Husers & Hget).
  exists w'. split; [exact E|]. split; [exact Husers|exact Hget].
Defined.

(** ** What the routes answer *)


(** The same request through the route. *)
Example run_return_null_route :
  serve (ReturnBook 1 1 NullScore) (fresh alice_holds_dune)
  = (Fulfilled (mkResponse 500 (JError "An error occurred while returning the book")),
     fresh alice_holds_dune).
Proof.
  reflexivity.
Qed.

(** ** The loans of a user *)

Lemma includeBooks_rows (s : Store) (usr : User) :
  foreign_keys s ->
  map snd (includeBooks s usr) = links_of_user (user_id usr) (userBooks s).
Proof.
  intros fk. unfold includeBooks, links_of_user.
  assert (H : forall r, In r (userBooks s) -> exists_book (bookId r) s)
    by (intros r Hr; apply (fk r Hr)).
  induction (userBooks s) as [|r t IH]; [reflexivity|].
  cbn [flat_map filter]. rewrite map_app, IH by (intros; apply H; now right).
  destruct (userId r =? user_id usr); [|reflexivity].
  specialize (H r (or_introl eq_refl)). unfold exists_book in H.
  destruct (find (fun b => book_id b =? bookId r) (books s)); [reflexivity|congruence].
Qed.

Lemma filter_snd_length {A B} (p : B -> bool) (l : list (A * B)) :
  List.length (filter (fun x => p (snd x)) l)
  = List.length (filter p (map snd l)).
Proof.
  induction l as [|x l IH]; [reflexivity|]. cbn [map filter].
  destruct (p (snd x)); cbn [List.length]; now rewrite IH.
Qed.

Lemma filter_split_length {A} (p : A -> bool) (l : list A) :
  (List.length (filter p l) + List.length (filter (fun x => negb (p x)) l))%nat
  = List.length l.
Proof.
  induction l as [|x l IH]; [reflexivity|]. cbn [filter].
  destruct (p x); cbn [negb List.length]; lia.
Qed.

(** In a reachable state getUserById reports every Loan-link row of the
    user exactly once: [present] has one entry per open row, [past] one
    per closed row, and together as many as the user has rows. *)
Theorem user_loans_are_all_reported (u : Z) (w : World) (usr : User) :
  reachable (store w) ->
  find (fun x => user_id x =? u) (users (store w)) = Some usr ->
  exists r,
    getUserById u w = (Fulfilled (Some r), w) /\
    List.length (present r)
    = List.length (filter isCurrentlyBorrowed
                          (links_of_user u (userBooks (store w)))) /\
    List.length (past r)
    = List.length (filter (fun x => negb (isCurrentlyBorrowed x))
                          (links_of_user u (userBooks (store w)))) /\
    (List.length (present r) + List.length (past r))%nat
    = List.length (links_of_user u (userBooks (store w))).
Proof.
  intros Hr Hfind. pose proof (cons_fk _ (reachable_consistent _ Hr)) as fk.
  cbv [getUserById bind findUserWithBooks]. rewrite Hfind. cbn [option_map].
  rewrite partition_books. cbn [app ret].
  eexists. split; [reflexivity|]. cbn [present past].
  rewrite !length_map.
  rewrite (filter_snd_length isCurrentlyBorrowed),
    (filter_snd_length (fun x => negb (isCurrentlyBorrowed x))),
    (includeBooks_rows _ usr fk), (find_user_id _ _ _ Hfind).
  split; [reflexivity|]. split; [reflexivity|]. apply filter_split_length.
Qed.

Lemma user_loans_are_all_reported_witness :
  reachable alice_holds_dune /\
  exists r,
    getUserById 1 (fresh alice_holds_dune) = (Fulfilled (Some r), fresh alice_holds_dune)
    /\ List.length (present r) = 1%nat.
Proof.
  assert (Hr : reachable alice_holds_dune) by (eexists; reflexivity).
  split; [exact Hr|].
  destruct (user_loans_are_all_reported 1 (fresh alice_holds_dune)
              (mkUser 1 "Alice") Hr eq_refl) as (r & E & Hp & _).
  exists r. split; [exact E|exact Hp].
Defined.

(** ** The text of a score *)

Lemma string_length_append (s t : string) :
  String.length (s ++ t) = (String.length s + String.length t)%nat.
Proof.
  induction s as [|c s IH]; cbn; [reflexivity|]. now rewrite IH.
Qed.

Lemma substring_prefix_suffix (s : string) (i : nat) :
  (i <= String.length s)%nat ->
  (substring 0 i s ++ substring i (String.length s - i) s)%string = s /\
  String.length (substring i (String.length s - i) s) = (String.length s - i)%nat.
Proof.
  revert i. induction s as [|c s IH]; intros i Hi.
  - destruct i; cbn in *; [auto|lia].
  - destruct i as [|i].
    + cbn [substring String.length Nat.sub append].
      destruct (IH 0%nat ltac:(lia)) as [E L].
      rewrite Nat.sub_0_r in E, L. cbn [substring append] in E.
      destruct s; cbn in *; split; congruence.
    + cbn [substring String.length Nat.sub append].
      destruct (IH i ltac:(cbn in Hi; lia)) as [E L]. split; [now rewrite E|exact L].
Qed.

Lemma zeros_length (k : nat) : String.length (zeros k) = k.
Proof. induction k; cbn; congruence. Qed.

Lemma zeros_string_of_uint (k : nat) (d : Decimal.uint) :
  (zeros k ++ NilEmpty.string_of_uint d)%string
  = NilEmpty.string_of_uint (Nat.iter k Decimal.D0 d).
Proof.
  induction k as [|k IH]; cbn; [reflexivity|]. now rewrite IH.
Qed.

Lemma of_uint_zeros (k : nat) (d : Decimal.uint) :
  N.of_uint (Nat.iter k Decimal.D0 d) = N.of_uint d.
Proof.
  induction k as [|k IH]; [reflexivity|]. cbn [Nat.iter]. exact IH.
Qed.

(** The text printed for [n] hundredths is some digits, a point and
    exactly two digits, and the digits read back as [n]. *)
Theorem score_text_reads_back (n : Z) :
  0 <= n ->
  exists a b d,
    point2 n = (a ++ "." ++ b)%string /\
    (1 <= String.length a)%nat /\ String.length b = 2%nat /\
    NilZero.uint_of_string (a ++ b) = Some d /\ Z.of_N (N.of_uint d) = n.
Proof.
  intros Hn. unfold point2.
  set (m0 := decimal n).
  set (m := (zeros (3 - String.length m0) ++ m0)%string).
  assert (Hlen : (3 <= String.length m)%nat).
  { unfold m. rewrite string_length_append, zeros_length. lia. }
  destruct (substring_prefix_suffix m (String.length m - 2) ltac:(lia)) as [E L].
  replace (String.length m - (String.length m - 2))%nat with 2%nat in E, L by lia.
  exists (substring 0 (String.length m - 2) m),
    (substring (String.length m - 2) 2 m),
    (Nat.iter (3 - String.length m0) Decimal.D0 (N.to_uint (Z.to_N n))).
  split; [reflexivity|]. split.
  { assert (H := f_equal String.length E).
    rewrite string_length_append, L in H. lia. }
  split; [exact L|]. rewrite E. split.
  - unfold m, m0, decimal, NilZero.string_of_uint.
    assert (Hnil : N.to_uint (Z.to_N n) <> Decimal.Nil).
    { destruct (Z.to_N n) as [|p]; [discriminate|]. cbn.
      apply DecimalPos.Unsigned.to_uint_nonnil. }
    destruct (N.to_uint (Z.to_N n)) as [|d0|d0|d0|d0|d0|d0|d0|d0|d0|d0] eqn:Ed;
      try congruence;
      rewrite zeros_string_of_uint; unfold NilZero.uint_of_string;
      rewrite NilEmpty.usu;
      match goal with
      | |- match ?s with EmptyString => _ | String _ _ => _ end = _ =>
          destruct s eqn:Es; [|reflexivity]
      end;
      exfalso; apply (f_equal String.length) in Es;
      rewrite <- zeros_string_of_uint, string_length_append, zeros_length in Es;
      cbn in Es; lia.
  - rewrite of_uint_zeros, DecimalN.Unsigned.of_to. lia.
Qed.

Lemma score_text_reads_back_witness :
  0 <= 407 /\
  exists a b d,
    point2 407 = (a ++ "." ++ b)%string /\
    (1 <= String.length a)%nat /\ String.length b = 2%nat /\
    NilZero.uint_of_string (a ++ b) = Some d /\ Z.of_N (N.of_uint d) = 407.
Proof.
  split; [lia|]. apply score_text_reads_back. lia.
Defined.

(** ** Looking up a book *)

(** GET /books/:id answers 404 "Book not found" exactly when no book has
    the id and 200 otherwise; either way it changes nothing. *)
Theorem book_route_404_iff (b : Z) (w : World) :
  exists resp,
    getBook b w = (Fulfilled resp, w) /\
    (code resp = 404 <-> ~ exists_book b (store w)) /\
    (code resp = 404 -> body resp = JError "Book not found") /\
    (code resp <> 404 -> code resp = 200 /\ exists bws, body resp = JBookWithScore bws).
Proof.
  unfold exists_book.
  destruct (find (fun x => book_id x =? b) (books (store w))) as [bk|] eqn:E.
  - unfold getBook, bind. rewrite (getBookWithScore_eq b w bk E). cbv zeta.
    eexists. split; [reflexivity|]. cbn [code body].
    split; [split; [discriminate|intros H; exfalso; apply H; discriminate]|].
    split; [discriminate|]. eauto.
  - cbv [getBook getBookWithScore bind findBookWithUsers]. rewrite E. cbn.
    eexists. split; [reflexivity|]. cbn [code body].
    split; [split; [intros _ H; now apply H|reflexivity]|].
    split; [reflexivity|]. intros H. now destruct H.
Qed.

(** In a reachable state a book whose Loan-link rows are all open (none
    was returned since it was last borrowed, or it was never borrowed)
    reports the score -1. *)
Theorem unrated_book_reports_sentinel (b : Z) (w : World) (bk : Book) :
  reachable (store w) ->
  find (fun x => book_id x =? b) (books (store w)) = Some bk ->
  (forall r, In r (userBooks (store w)) -> bookId r = b ->
             isCurrentlyBorrowed r = true) ->
  getBookWithScore b w
  = (Fulfilled (Some (mkBookWithScore b (book_name bk) (JsNumber (-1)))), w).
Proof.
  intros Hreach Hfind Hopen. apply reachable_consistent in Hreach as [_ fk _ un].
  rewrite (getBookWithScore_eq b w bk Hfind). cbv zeta.
  rewrite (includeUsers_rows _ bk fk), (find_book_id _ _ _ Hfind).
  rewrite running_total_zero; [reflexivity|].
  intros r Hr. unfold links_of_book in Hr. apply filter_In in Hr as [Hr Hb].
  apply Z.eqb_eq in Hb. apply un; [exact Hr|]. exact (Hopen r Hr Hb).
Qed.

Lemma unrated_book_reports_sentinel_witness :
  reachable alice_holds_dune /\
  getBookWithScore 1 (fresh alice_holds_dune)
  = (Fulfilled (Some (mkBookWithScore 1 "Dune" (JsNumber (-1)))),
     fresh alice_holds_dune).
Proof.
  assert (Hr : reachable alice_holds_dune) by (eexists; reflexivity).
  split; [exact Hr|].
  apply (unrated_book_reports_sentinel 1 (fresh alice_holds_dune)
           (mkBook 1 "Dune" (S754_zero false)) Hr eq_refl).
  intros r [<-|[]] _. reflexivity.
Defined.
